(** * project_to_xml.py: snapshot builder and patch applier

    A shallow embedding of [src/project_to_xml.py] and the properties of
    its content cleaner, binary detector, snapshot walk and patch
    application.

    Python values are modelled as follows.
    - [str] is a sequence of Unicode code points ([list N]); string
      literals of the source are written with [lit].
    - [bytes] is a sequence of octets ([list N], each below 256).
    - exceptions are explicit results ([option], or a sum with an error
      type); [print] calls are an explicit log of events. *)

From Stdlib Require Import String Ascii.
From Stdlib Require Import List NArith PeanoNat Lia Bool.
Import ListNotations.
Local Open Scope string_scope.
Local Open Scope list_scope.

(** ** Python [str] *)

Definition char := N.
Definition str := list char.

(** A literal of the source (ASCII only) as a [str]. *)
Definition lit (s : string) : str :=
  map N_of_ascii (list_ascii_of_string s).

Definition LF : char := 10%N.
Definition CR : char := 13%N.
Definition BACKTICK : char := 96%N.

Fixpoint str_eqb (a b : str) : bool :=
  match a, b with
  | [], [] => true
  | x :: a', y :: b' => N.eqb x y && str_eqb a' b'
  | _, _ => false
  end.

(** [s.startswith(p)], returning the remainder of [s] after [p]. *)
Fixpoint strip_prefix (p s : str) : option str :=
  match p with
  | [] => Some s
  | x :: p' =>
      match s with
      | y :: s' => if N.eqb x y then strip_prefix p' s' else None
      | [] => None
      end
  end.

Definition startswith (s p : str) : bool :=
  match strip_prefix p s with Some _ => true | None => false end.

(** [sep.join(l)]. *)
Fixpoint join (sep : str) (l : list str) : str :=
  match l with
  | [] => []
  | [x] => x
  | x :: l' => x ++ sep ++ join sep l'
  end.

(** [str.isspace] on one code point (CPython's [_PyUnicode_IsWhitespace]);
    the same set is the regular-expression class [\s] on [str] patterns. *)
Definition is_space (c : char) : bool :=
  ((9 <=? c) && (c <=? 13) || (28 <=? c) && (c <=? 32) || (c =? 133)
   || (c =? 160) || (c =? 5760) || (8192 <=? c) && (c <=? 8202)
   || (c =? 8232) || (c =? 8233) || (c =? 8239) || (c =? 8287)
   || (c =? 12288))%N.

(** The line boundaries of [str.splitlines]: LF, VT, FF, CR, FS, GS, RS,
    NEL, LS and PS. *)
Definition is_linebreak (c : char) : bool :=
  ((10 <=? c) && (c <=? 13) || (28 <=? c) && (c <=? 30) || (c =? 133)
   || (c =? 8232) || (c =? 8233))%N.

(** [s.splitlines()]: [cur] is the current line, reversed.  CR LF counts as
    one boundary; a final line without terminator is kept when non-empty. *)
Fixpoint splitlines_aux (cur : str) (s : str) : list str :=
  match s with
  | [] => match cur with [] => [] | _ => [rev cur] end
  | c :: s' =>
      if N.eqb c CR then
        match s' with
        | d :: s'' =>
            if N.eqb d LF then rev cur :: splitlines_aux [] s''
            else rev cur :: splitlines_aux [] s'
        | [] => rev cur :: splitlines_aux [] s'
        end
      else if is_linebreak c then rev cur :: splitlines_aux [] s'
      else splitlines_aux (c :: cur) s'
  end.

Definition splitlines (s : str) : list str := splitlines_aux [] s.

(** [s.lstrip()], [s.rstrip()] and [s.strip()] with no argument. *)
Fixpoint lstrip_space (s : str) : str :=
  match s with
  | c :: s' => if is_space c then lstrip_space s' else s
  | [] => []
  end.

Definition strip (s : str) : str :=
  rev (lstrip_space (rev (lstrip_space s))).

(** ** The two repair patterns of [clean_content]

    The regular expressions are matched the way Python's backtracking
    engine does, one combinator per construct.  Every combinator returns
    the text it consumed together with the remaining input. *)

(** [.*?] followed by the continuation [k]: the shortest run of characters
    other than LF after which [k] matches. *)
Fixpoint lazy_dot (k : str -> option (str * str)) (s : str)
  : option (str * str) :=
  match k s with
  | Some r => Some r
  | None =>
      match s with
      | c :: s' =>
          if N.eqb c LF then None
          else match lazy_dot k s' with
               | Some (g, r) => Some (c :: g, r)
               | None => None
               end
      | [] => None
      end
  end.

(** [\s*] followed by [k]: the longest run of whitespace first, giving
    characters back one at a time while [k] fails. *)
Fixpoint greedy_space {X : Type} (k : str -> option X) (s : str)
  : option (str * X) :=
  match s with
  | c :: s' =>
      if is_space c then
        match greedy_space k s' with
        | Some (ws, x) => Some (c :: ws, x)
        | None => option_map (pair []) (k s)
        end
      else option_map (pair []) (k s)
  | [] => option_map (pair []) (k s)
  end.

(** The negated class of both patterns: any character (LF included) other
    than a backtick, an apostrophe or a double quote. *)
Definition is_quote (c : char) : bool :=
  (N.eqb c 96 || N.eqb c 39 || N.eqb c 34)%N.

(** [}] followed by the literal [closer], which is outside group 2. *)
Definition close_brace (closer : str) (s : str) : option (str * str) :=
  match strip_prefix (lit "}" ++ closer) s with
  | Some r => Some (lit "}", r)
  | None => None
  end.

(** [\${.*?}] followed by [closer]. *)
Definition placeholder (closer : str) (s : str) : option (str * str) :=
  match strip_prefix (lit "${") s with
  | Some s' =>
      match lazy_dot (close_brace closer) s' with
      | Some (g, r) => Some (lit "${" ++ g, r)
      | None => None
      end
  | None => None
  end.

(** Group 2 of both patterns (one character that is no quote, then [.*?],
    then the placeholder), followed by [closer]: the text of the group and
    the input after [closer]. *)
Definition group2 (closer : str) (s : str) : option (str * str) :=
  match s with
  | c :: s' =>
      if is_quote c then None
      else match lazy_dot (placeholder closer) s' with
           | Some (g, r) => Some (c :: g, r)
           | None => None
           end
  | [] => None
  end.

Definition func_names : list str :=
  [lit "alert"; lit "setSaveStatus"; lit "setFileError"].

(** The pattern of [pattern_func] at the start of [s]: one of the three
    names (group 1), an opening parenthesis, group 2, a closing parenthesis
    and a semicolon.  Returns groups 1 and 2 and the input after the
    match. *)
Fixpoint match_func_names (names : list str) (s : str)
  : option (str * str * str) :=
  match names with
  | [] => None
  | name :: names' =>
      match strip_prefix (name ++ lit "(") s with
      | Some s' =>
          match group2 (lit ");") s' with
          | Some (g2, r) => Some (name, g2, r)
          | None => match_func_names names' s
          end
      | None => match_func_names names' s
      end
  end.

Definition pattern_func (s : str) : option (str * str * str) :=
  match_func_names func_names s.

(** The pattern of [pattern_assign] at the start of [s]: group 1 is
    [content\s*=\s*], then group 2, then a semicolon. *)
Definition pattern_assign (s : str) : option (str * str * str) :=
  match strip_prefix (lit "content") s with
  | Some s1 =>
      match greedy_space
              (fun t => match strip_prefix (lit "=") t with
                        | Some s2 => greedy_space (group2 (lit ";")) s2
                        | None => None
                        end) s1 with
      | Some (ws1, (ws2, (g2, r))) =>
          Some (lit "content" ++ ws1 ++ lit "=" ++ ws2, g2, r)
      | None => None
      end
  | None => None
  end.

(** The two replacement templates (group 1, then group 2 between
    backticks, with the punctuation of the match around it) and the length
    of the text each match covers. *)
Definition repl_func (g1 g2 : str) : str :=
  g1 ++ lit "(`" ++ g2 ++ lit "`);".
Definition len_func (g1 g2 : str) : nat :=
  length g1 + 1 + length g2 + 2.
Definition repl_assign (g1 g2 : str) : str :=
  g1 ++ lit "`" ++ g2 ++ lit "`;".
Definition len_assign (g1 g2 : str) : nat :=
  length g1 + length g2 + 1.

(** [pattern.sub(template, s)]: leftmost matches, not overlapping.  After a
    match covering [n] characters the scan resumes [n] characters later;
    [skip] counts the characters of the current match still to pass. *)
Fixpoint sub_aux (pat : str -> option (str * str * str))
    (repl : str -> str -> str) (len : str -> str -> nat)
    (skip : nat) (s : str) : str :=
  match s with
  | [] => []
  | c :: s' =>
      match skip with
      | S k => sub_aux pat repl len k s'
      | O =>
          match pat s with
          | Some (g1, g2, _) =>
              repl g1 g2 ++ sub_aux pat repl len (len g1 g2 - 1) s'
          | None => c :: sub_aux pat repl len 0 s'
          end
      end
  end.

Definition sub_func (s : str) : str :=
  sub_aux pattern_func repl_func len_func 0 s.
Definition sub_assign (s : str) : str :=
  sub_aux pattern_assign repl_assign len_assign 0 s.

(** ** [clean_content] *)

Definition lines_to_remove : list str :=
  [lit "Generated code"; lit "IGNORE_WHEN_COPYING_START";
   lit "content_copy"; lit "download"; lit "Use code with caution.";
   lit "IGNORE_WHEN_COPYING_END"].

Definition keep_line (line : str) : bool :=
  negb (existsb (str_eqb (strip line)) lines_to_remove).

Definition clean_content (content : str) : str :=
  let content := sub_func content in
  let content := sub_assign content in
  let lines := splitlines content in
  let cleaned_lines := filter keep_line lines in
  join [LF] cleaned_lines.

(** Predicates used to state the properties of the cleaner. *)

(** The text contains the two characters that open a placeholder. *)
Fixpoint has_placeholder (s : str) : bool :=
  match s with
  | [] => false
  | c :: s' =>
      (N.eqb c 36 && match s' with d :: _ => N.eqb d 123 | [] => false end)
      || has_placeholder s'
  end.

(** Number of line-boundary characters of a text. *)
Definition count_breaks (s : str) : nat :=
  List.length (filter is_linebreak s).

(** The text is not empty and its last character satisfies [p]. *)
Definition ends_with (p : char -> bool) (s : str) : Prop :=
  exists s0 c, s = s0 ++ [c] /\ p c = true.

(** Boolean form of [ends_with]. *)
Fixpoint ends_withb (p : char -> bool) (s : str) : bool :=
  match s with
  | [] => false
  | [c] => p c
  | _ :: s' => ends_withb p s'
  end.

Definition no_break (s : str) : Prop :=
  Forall (fun c => is_linebreak c = false) s.

(** The text after the two repairs, before it is split into lines. *)
Definition repaired (content : str) : str := sub_assign (sub_func content).

(** The text with every line boundary turned into one line feed; CR LF
    is one boundary. *)
Fixpoint normalize_endings (s : str) : str :=
  match s with
  | [] => []
  | c :: s' =>
      if N.eqb c CR then
        LF :: match s' with
              | d :: s'' =>
                  if N.eqb d LF then normalize_endings s''
                  else normalize_endings s'
              | [] => []
              end
      else if is_linebreak c then LF :: normalize_endings s'
      else c :: normalize_endings s'
  end.

(** The text without its last character when that is a line feed. *)
Fixpoint drop_final_LF (s : str) : str :=
  match s with
  | [] => []
  | [c] => if N.eqb c LF then [] else [c]
  | c :: s' => c :: drop_final_LF s'
  end.

(** The lines, each followed by a line feed. *)
Definition terminate_lines (l : list str) : str :=
  concat (map (fun line => line ++ [LF]) l).

(** Number of backticks of a text. *)
Definition count_backticks (s : str) : nat :=
  List.length (filter (N.eqb BACKTICK) s).


(** ** More of Python [str] *)

Definition SLASH : char := 47%N.
Definition BACKSLASH : char := 92%N.

Definition endswith_char (s : str) (c : char) : bool :=
  ends_withb (N.eqb c) s.

(** [s.split(sep)] for a separator of one character. *)
Fixpoint split (sep : char) (s : str) : list str :=
  match s with
  | [] => [[]]
  | c :: s' =>
      if N.eqb c sep then [] :: split sep s'
      else match split sep s' with
           | x :: xs => (c :: x) :: xs
           | [] => [[c]]
           end
  end.

(** [s.replace(a, b)] for single characters. *)
Definition replace_char (a b : char) (s : str) : str :=
  map (fun c => if N.eqb c a then b else c) s.

(** [s.lstrip(chars)] and [s.rstrip(chars)]. *)
Fixpoint lstrip_chars (chars : str) (s : str) : str :=
  match s with
  | c :: s' => if existsb (N.eqb c) chars then lstrip_chars chars s' else s
  | [] => []
  end.

Definition rstrip_chars (chars : str) (s : str) : str :=
  rev (lstrip_chars chars (rev s)).

(** [s.find(sub)] and [s.rfind(sub)]: the lowest and the highest index at
    which [sub] starts, [None] for Python's [-1]. *)
Fixpoint find (sub s : str) : option nat :=
  if startswith s sub then Some 0
  else match s with
       | [] => None
       | _ :: s' => option_map S (find sub s')
       end.

Fixpoint rfind (sub s : str) : option nat :=
  match s with
  | [] => if startswith s sub then Some 0 else None
  | _ :: s' =>
      match rfind sub s' with
      | Some i => Some (S i)
      | None => if startswith s sub then Some 0 else None
      end
  end.

(** The slice [s[a:b]] for indices that are not negative. *)
Definition slice (s : str) (a b : nat) : str := firstn (b - a) (skipn a s).

(** [s.lower() == 'true']: no code point outside ASCII has a lower-case
    form among the letters of [true], so the test is a comparison up to
    ASCII case. *)
Definition ascii_lower (c : char) : char :=
  if ((65 <=? c) && (c <=? 90))%N then (c + 32)%N else c.

Definition lower_is_true (s : str) : bool :=
  str_eqb (map ascii_lower s) (lit "true")
  && forallb (fun c => (c <? 128)%N) s.

(** ** [os.path] on POSIX *)

Definition isabs (p : str) : bool := startswith p [SLASH].

(** [os.path.join(a, b)]. *)
Definition path_join (a b : str) : str :=
  if startswith b [SLASH] then b
  else if match a with [] => true | _ => endswith_char a SLASH end
       then a ++ b
       else a ++ [SLASH] ++ b.

Definition DOT : str := lit ".".
Definition DOTDOT : str := lit "..".

(** The loop of [normpath]; [new_comps] is kept with its last component
    first, so [append] is [::] and [pop] is [tl]. *)
Fixpoint normpath_comps (initial_slashes : nat) (new_comps : list str)
    (comps : list str) : list str :=
  match comps with
  | [] => new_comps
  | comp :: rest =>
      if str_eqb comp [] || str_eqb comp DOT then
        normpath_comps initial_slashes new_comps rest
      else if negb (str_eqb comp DOTDOT)
              || (Nat.eqb initial_slashes 0
                  && match new_comps with [] => true | _ => false end)
              || match new_comps with
                 | top :: _ => str_eqb top DOTDOT
                 | [] => false
                 end
      then normpath_comps initial_slashes (comp :: new_comps) rest
      else normpath_comps initial_slashes (tl new_comps) rest
  end.

(** [os.path.normpath(path)]. *)
Definition normpath (path : str) : str :=
  match path with
  | [] => DOT
  | _ =>
      let initial_slashes :=
        if startswith path [SLASH] then
          if startswith path [SLASH; SLASH]
             && negb (startswith path [SLASH; SLASH; SLASH])
          then 2 else 1
        else 0 in
      let comps := split SLASH path in
      let new_comps := rev (normpath_comps initial_slashes [] comps) in
      let path := repeat SLASH initial_slashes ++ join [SLASH] new_comps in
      match path with [] => DOT | _ => path end
  end.

(** [os.path.abspath(path)]; [cwd] is [os.getcwd()]. *)
Definition abspath (cwd path : str) : str :=
  normpath (if isabs path then path else path_join cwd path).

(** [os.path.dirname(p)]. *)
Definition dirname (p : str) : str :=
  let i := match rfind [SLASH] p with Some i => i + 1 | None => 0 end in
  let head := firstn i p in
  if match head with [] => false | _ => true end
     && negb (forallb (N.eqb SLASH) head)
  then rstrip_chars [SLASH] head else head.

Definition nonempty (s : str) : bool :=
  match s with [] => false | _ => true end.

Fixpoint commonprefix (a b : list str) : list str :=
  match a, b with
  | x :: a', y :: b' => if str_eqb x y then x :: commonprefix a' b' else []
  | _, _ => []
  end.

(** [os.path.relpath(path, start)] for a [path] that is not empty. *)
Definition relpath (cwd path start : str) : str :=
  let start_list := filter nonempty (split SLASH (abspath cwd start)) in
  let path_list := filter nonempty (split SLASH (abspath cwd path)) in
  let i := length (commonprefix start_list path_list) in
  let rel_list := repeat DOTDOT (length start_list - i) ++ skipn i path_list in
  match rel_list with
  | [] => DOT
  | x :: l => fold_left path_join l x
  end.

(** ** Bytes and the UTF-8 text layer *)

Definition bytes := list N.

Definition is_cont (b : N) : bool := ((128 <=? b) && (b <=? 191))%N.

(** [data.decode('utf-8', errors)]: [strict = true] is the default error
    handler, which raises ([None]); [strict = false] is [errors='ignore'],
    which drops the offending byte and goes on.  Overlong forms,
    surrogates and code points above U+10FFFF are errors. *)
Fixpoint utf8_decode (strict : bool) (bs : bytes) : option str :=
  match bs with
  | [] => Some []
  | b1 :: r1 =>
      let bad := fun _ : unit =>
        if strict then None else utf8_decode strict r1 in
      if (b1 <? 128)%N then option_map (cons b1) (utf8_decode strict r1)
      else if ((194 <=? b1) && (b1 <=? 223))%N then
        match r1 with
        | b2 :: r2 =>
            if is_cont b2
            then option_map (cons ((b1 - 192) * 64 + (b2 - 128))%N)
                            (utf8_decode strict r2)
            else bad tt
        | _ => bad tt
        end
      else if ((224 <=? b1) && (b1 <=? 239))%N then
        match r1 with
        | b2 :: b3 :: r3 =>
            if is_cont b2 && is_cont b3
               && negb ((b1 =? 224) && (b2 <? 160))%N
               && negb ((b1 =? 237) && (160 <=? b2))%N
            then option_map
                   (cons ((b1 - 224) * 4096 + (b2 - 128) * 64 + (b3 - 128))%N)
                   (utf8_decode strict r3)
            else bad tt
        | _ => bad tt
        end
      else if ((240 <=? b1) && (b1 <=? 244))%N then
        match r1 with
        | b2 :: b3 :: b4 :: r4 =>
            if is_cont b2 && is_cont b3 && is_cont b4
               && negb ((b1 =? 240) && (b2 <? 144))%N
               && negb ((b1 =? 244) && (144 <=? b2))%N
            then option_map
                   (cons ((b1 - 240) * 262144 + (b2 - 128) * 4096
                          + (b3 - 128) * 64 + (b4 - 128))%N)
                   (utf8_decode strict r4)
            else bad tt
        | _ => bad tt
        end
      else bad tt
  end.

(** [s.encode('utf-8')]; surrogates cannot be encoded ([None]). *)
Definition utf8_encode_char (c : char) : option bytes :=
  if (c <? 128)%N then Some [c]
  else if (c <? 2048)%N then Some [192 + c / 64; 128 + c mod 64]%N
  else if (c <? 65536)%N then
    if ((55296 <=? c) && (c <=? 57343))%N then None
    else Some [224 + c / 4096; 128 + (c / 64) mod 64; 128 + c mod 64]%N
  else if (c <? 1114112)%N then
    Some [240 + c / 262144; 128 + (c / 4096) mod 64;
          128 + (c / 64) mod 64; 128 + c mod 64]%N
  else None.

Fixpoint utf8_encode (s : str) : option bytes :=
  match s with
  | [] => Some []
  | c :: s' =>
      match utf8_encode_char c, utf8_encode s' with
      | Some b, Some bs => Some (b ++ bs)
      | _, _ => None
      end
  end.

(** Reading in text mode translates CR LF and CR to LF. *)
Fixpoint universal_newlines (s : str) : str :=
  match s with
  | [] => []
  | c :: s' =>
      if N.eqb c CR then
        LF :: match s' with
              | d :: s'' =>
                  if N.eqb d LF then universal_newlines s''
                  else universal_newlines s'
              | [] => []
              end
      else c :: universal_newlines s'
  end.
(** ** Configuration *)

Definition DQUOTE : char := 34%N.

(** The lines of [HEADER_TEXT]. *)
Definition HEADER_lines : list str :=
  [ lit "You are a highly skilled coding assistant, that read understand each code line by line with an XML parsing tool that can modify and create files. When providing coding solutions, follow these precise rules:";
    [];
    lit "When modifying existing code:";
    [];
    lit "Provide the COMPLETE code of changed files within XML tags.";
    lit "Use format: <file path=" ++ [DQUOTE] ++ lit "/path/to/file" ++ [DQUOTE] ++ lit ">...content...</file>";
    lit "Never include files you haven't modified.";
    lit "When creating new files:";
    [];
    lit "Specify the path and filename.";
    lit "Include complete file content in XML tags.";
    lit "Use format: <file path=" ++ [DQUOTE] ++ lit "/path/to/newfile.ext" ++ [DQUOTE] ++ lit ">...content...</file>";
    lit "When deleting files:";
    [];
    lit "Use the delete attribute.";
    lit "Format: <file path=" ++ [DQUOTE] ++ lit "/path/to/file" ++ [DQUOTE] ++ lit " delete=" ++ [DQUOTE] ++ lit "true" ++ [DQUOTE] ++ lit " />";
    lit "Crucially, all file content MUST be wrapped in <![CDATA[...]]> sections to handle special characters correctly.";
    [];
    lit "For explanations and discussions:";
    [];
    lit "Use plain text outside XML tags.";
    lit "Be concise and clear.";
    lit "u need to create or overwrite a file called update.txt, u should only interact with this update.txt only, it is highly forbidden to access other files, except the given files. you can write only update.txt";
    [];
    lit "Your responses must follow this XML structure:";
    [];
    lit "<project>";
    lit "  <file path=" ++ [DQUOTE] ++ lit "/path/to/file1" ++ [DQUOTE] ++ lit "><![CDATA[";
    lit "    file 1 full content";
    lit "  ]]></file>";
    lit "  <file path=" ++ [DQUOTE] ++ lit "/path/to/file2" ++ [DQUOTE] ++ lit "><![CDATA[";
    lit "    file 2 full content";
    lit "  ]]></file>";
    lit "  <file path=" ++ [DQUOTE] ++ lit "/file/to/delete" ++ [DQUOTE] ++ lit " delete=" ++ [DQUOTE] ++ lit "true" ++ [DQUOTE] ++ lit " />";
    lit "</project>";
    lit "I will provide code within this XML format for you to assist with below." ].

Definition HEADER_TEXT : str := join [LF] HEADER_lines ++ [LF].

Definition OUTPUT_FILENAME : str := lit "project_output.txt".
Definition UPDATE_FILENAME : str := lit "update.txt".
Definition CUSTOM_IGNORE_FILENAME : str := lit ".project_ignore".
(** [os.path.basename(__file__)]. *)
Definition SCRIPT_FILENAME : str := lit "project_to_xml.py".

(** ** The file system

    A tree of directories and regular files; the value of type [node]
    that stands for the whole file system is the directory [/].  There
    are no links, special files or permissions, so an operation fails
    only for the shape of the tree.  A path is resolved one component at
    a time; the paths this program hands to the system come from
    [abspath] or from joining names to the root directory, and the model
    does not interpret [.] and [..] components itself. *)

Set Warnings "-register-all".

Inductive node : Type :=
| File (data : bytes)
| Dir (entries : list (str * node)).

Fixpoint entry_lookup (name : str) (es : list (str * node)) : option node :=
  match es with
  | [] => None
  | (k, v) :: es' => if str_eqb k name then Some v else entry_lookup name es'
  end.

Fixpoint entry_set (name : str) (n : node) (es : list (str * node))
  : list (str * node) :=
  match es with
  | [] => [(name, n)]
  | (k, v) :: es' =>
      if str_eqb k name then (k, n) :: es' else (k, v) :: entry_set name n es'
  end.

(** Removing a name removes every entry that carries it; a directory
    lists a name once. *)
Definition entry_remove (name : str) (es : list (str * node))
  : list (str * node) :=
  filter (fun e => negb (str_eqb (fst e) name)) es.

(** The components of a path. *)
Definition components (p : str) : list str := filter nonempty (split SLASH p).

(** A relative path is resolved from the working directory. *)
Definition resolve (cwd p : str) : list str :=
  if isabs p then components p else components cwd ++ components p.

Fixpoint lookup (comps : list str) (n : node) : option node :=
  match comps with
  | [] => Some n
  | c :: rest =>
      match n with
      | Dir es =>
          match entry_lookup c es with
          | Some child => lookup rest child
          | None => None
          end
      | File _ => None
      end
  end.

(** What [stat] tells about a path: a regular file with its content, or
    a directory. *)
Inductive kind : Type := KFile (data : bytes) | KDir.

Definition kind_of (n : node) : kind :=
  match n with File d => KFile d | Dir _ => KDir end.

Definition stat (fs : node) (comps : list str) : option kind :=
  option_map kind_of (lookup comps fs).

(** Rewrites the listing of the directory at [comps]; [None] when there is
    no such directory or [f] refuses. *)
Fixpoint update_dir (comps : list str)
    (f : list (str * node) -> option (list (str * node))) (n : node)
  : option node :=
  match n with
  | File _ => None
  | Dir es =>
      match comps with
      | [] => option_map Dir (f es)
      | c :: rest =>
          match entry_lookup c es with
          | Some child =>
              match update_dir rest f child with
              | Some child' => Some (Dir (entry_set c child' es))
              | None => None
              end
          | None => None
          end
      end
  end.

(** A path split into its parent and its last component. *)
Fixpoint unsnoc (l : list str) : option (list str * str) :=
  match l with
  | [] => None
  | [x] => Some ([], x)
  | x :: l' =>
      match unsnoc l' with
      | Some (p, y) => Some (x :: p, y)
      | None => None
      end
  end.

(** The system calls, on resolved paths; [None] stands for [OSError]. *)

Definition sys_unlink (comps : list str) (fs : node) : option node :=
  match unsnoc comps with
  | None => None
  | Some (parent, name) =>
      update_dir parent
        (fun es => match entry_lookup name es with
                   | Some (File _) => Some (entry_remove name es)
                   | _ => None
                   end) fs
  end.

Definition sys_rmdir (comps : list str) (fs : node) : option node :=
  match unsnoc comps with
  | None => None
  | Some (parent, name) =>
      update_dir parent
        (fun es => match entry_lookup name es with
                   | Some (Dir []) => Some (entry_remove name es)
                   | _ => None
                   end) fs
  end.

Definition sys_mkdir (comps : list str) (fs : node) : option node :=
  match unsnoc comps with
  | None => None
  | Some (parent, name) =>
      update_dir parent
        (fun es => match entry_lookup name es with
                   | Some _ => None
                   | None => Some (entry_set name (Dir []) es)
                   end) fs
  end.

(** [open(path, 'w')] followed by writing [data]: creates the file or
    replaces its content. *)
Definition sys_write (comps : list str) (data : bytes) (fs : node)
  : option node :=
  match unsnoc comps with
  | None => None
  | Some (parent, name) =>
      update_dir parent
        (fun es => match entry_lookup name es with
                   | Some (Dir _) => None
                   | _ => Some (entry_set name (File data) es)
                   end) fs
  end.

(** ** The [os] functions the program calls *)

Section OS.
Variable cwd : str.

Definition os_path_exists (fs : node) (p : str) : bool :=
  match lookup (resolve cwd p) fs with Some _ => true | None => false end.

Definition os_path_isfile (fs : node) (p : str) : bool :=
  match lookup (resolve cwd p) fs with
  | Some (File _) => true
  | _ => false
  end.

Definition os_remove (fs : node) (p : str) : option node :=
  sys_unlink (resolve cwd p) fs.

Definition os_rmdir (fs : node) (p : str) : option node :=
  sys_rmdir (resolve cwd p) fs.

Definition os_listdir (fs : node) (p : str) : option (list str) :=
  match lookup (resolve cwd p) fs with
  | Some (Dir es) => Some (map fst es)
  | _ => None
  end.

(** [os.makedirs(name)]: every missing ancestor is created, from the
    top, then [name] itself, which must not exist. *)
Fixpoint makedirs_from (prefix rest : list str) (fs : node) : option node :=
  match rest with
  | [] => sys_mkdir prefix fs
  | [c] => sys_mkdir (prefix ++ [c]) fs
  | c :: rest' =>
      match lookup (prefix ++ [c]) fs with
      | Some _ => makedirs_from (prefix ++ [c]) rest' fs
      | None =>
          match sys_mkdir (prefix ++ [c]) fs with
          | Some fs' => makedirs_from (prefix ++ [c]) rest' fs'
          | None => None
          end
      end
  end.

Definition os_makedirs (fs : node) (p : str) : option node :=
  makedirs_from [] (resolve cwd p) fs.

(** [open(p, 'rb').read()]. *)
Definition read_bytes (fs : node) (p : str) : option bytes :=
  match lookup (resolve cwd p) fs with
  | Some (File data) => Some data
  | _ => None
  end.

(** [open(p, 'r', encoding='utf-8').read()], with [errors='ignore']
    when [strict] is [false]; [None] when [open] or the decoder
    raises. *)
Definition read_text (strict : bool) (fs : node) (p : str) : option str :=
  match read_bytes fs p with
  | Some data => option_map universal_newlines (utf8_decode strict data)
  | None => None
  end.

(** [with open(p, 'w', encoding='utf-8') as f: f.write(content)]: [open]
    creates or empties the file, then the encoder may raise.  The result
    is the new file system and whether an exception was raised. *)
Definition write_text (fs : node) (p : str) (content : str)
  : node * bool :=
  match sys_write (resolve cwd p) [] fs with
  | None => (fs, true)
  | Some fs0 =>
      match utf8_encode content with
      | None => (fs0, true)
      | Some data =>
          match sys_write (resolve cwd p) data fs0 with
          | Some fs1 => (fs1, false)
          | None => (fs0, true)
          end
      end
  end.

(** ** [is_binary] *)

Definition is_binary_chunk (opened : option bytes) (chunk_size : nat)
  : bool :=
  match opened with
  | Some data =>
      let chunk := firstn chunk_size data in
      if existsb (N.eqb 0) chunk then true else false
  | None => true
  end.

Definition is_binary (fs : node) (filepath : str) (chunk_size : nat)
  : bool :=
  is_binary_chunk (read_bytes fs filepath) chunk_size.
End OS.

(** ** [xml.etree.ElementTree]

    The parser is not part of the program: [ET_fromstring] is a parameter
    of the patch applier, [None] standing for [ParseError].  An element
    has a tag, attributes, the text before its first child and its
    children. *)

Inductive Element : Type :=
| Elem (tag : str) (attrib : list (str * str)) (text : option str)
       (children : list Element).

Definition tag (e : Element) : str := match e with Elem t _ _ _ => t end.
Definition attrib (e : Element) : list (str * str) :=
  match e with Elem _ a _ _ => a end.
Definition text (e : Element) : option str :=
  match e with Elem _ _ t _ => t end.
Definition children (e : Element) : list Element :=
  match e with Elem _ _ _ c => c end.

(** [e.get(key)]. *)
Fixpoint attr_get (key : str) (a : list (str * str)) : option str :=
  match a with
  | [] => None
  | (k, v) :: a' => if str_eqb k key then Some v else attr_get key a'
  end.

Definition get (e : Element) (key : str) : option str :=
  attr_get key (attrib e).

(** [e.findall(name)] for a plain tag name: the children with that tag. *)
Definition findall (e : Element) (name : str) : list Element :=
  filter (fun c => str_eqb (tag c) name) (children e).

(** ** What the program prints *)

Inductive event : Type :=
| UpdateFileNotFound (input_txt_path : str)
| UpdateMode
| ApplyingChanges (input_txt_path : str)
| NoProjectBlock (input_txt_path : str)
| SkippingNoPath
| SkippingSecurityRisk (relative_path : str)
| DeletedFile (sanitized_path : str)
| RemovedEmptyDir (rel : str)
| ErrorDeleting (sanitized_path : str)
| SkippedDeletion (sanitized_path : str)
| CreatedDirectory (rel : str)
| UpdatedFile (sanitized_path : str)
| ErrorUpdating (sanitized_path : str)
| UpdateComplete (file_count : nat)
| MalformedXml (input_txt_path : str)
| UnexpectedError
| CreateMode
| ScanningProject (root_dir : str)
| LoadedIgnoreRules
| IgnoringDirectory (relative_dir_path : str)
| IgnoringFileRule (relative_path : str)
| IgnoringFileBinary (relative_path : str)
| AddingFile (relative_path : str)
| ErrorReading (relative_path : str)
| ContextSaved (output_file_path : str)
| ErrorWritingOutput.

(** ** [update_project_from_xml] *)

Section Update.
Variable ET_fromstring : str -> option Element.
Variable cwd : str.

Definition start_tag : str := lit "<project>".
Definition end_tag : str := lit "</project>".

(** The state of the loop: the file system, the log and [file_count]. *)
Definition loop_state : Type := node * list event * nat.

(** The branch [if is_delete_operation] of the loop body. *)
Definition delete_entry (root_dir project_root_abs full_path
    sanitized_path : str) (fs : node) (log : list event)
  : node * list event :=
  if os_path_exists cwd fs full_path && os_path_isfile cwd fs full_path
  then
    match os_remove cwd fs full_path with
    | None => (fs, log ++ [ErrorDeleting sanitized_path])
    | Some fs1 =>
        let log1 := log ++ [DeletedFile sanitized_path] in
        let parent_dir := dirname full_path in
        match os_listdir cwd fs1 parent_dir with
        | None => (fs1, log1 ++ [ErrorDeleting sanitized_path])
        | Some names =>
            if match names with [] => true | _ => false end
               && negb (str_eqb parent_dir project_root_abs)
            then
              match os_rmdir cwd fs1 parent_dir with
              | None => (fs1, log1 ++ [ErrorDeleting sanitized_path])
              | Some fs2 =>
                  (fs2, log1 ++ [RemovedEmptyDir
                                   (relpath cwd parent_dir root_dir)])
              end
            else (fs1, log1)
        end
    end
  else (fs, log ++ [SkippedDeletion sanitized_path]).

(** The write branch: the [try] block that creates the parent
    directories and writes the cleaned content. *)
Definition write_entry (root_dir full_path sanitized_path : str)
    (content : str) (st : loop_state) : loop_state :=
  let '(fs, log, file_count) := st in
  let parent_dir := dirname full_path in
  let made :=
    if negb (os_path_exists cwd fs parent_dir) then
      match os_makedirs cwd fs parent_dir with
      | Some fs1 =>
          Some (fs1, log ++ [CreatedDirectory
                               (relpath cwd parent_dir root_dir)])
      | None => None
      end
    else Some (fs, log) in
  match made with
  | None => (fs, log ++ [ErrorUpdating sanitized_path], file_count)
  | Some (fs1, log1) =>
      match write_text cwd fs1 full_path content with
      | (fs2, false) =>
          (fs2, log1 ++ [UpdatedFile sanitized_path], file_count + 1)
      | (fs2, true) =>
          (fs2, log1 ++ [ErrorUpdating sanitized_path], file_count)
      end
  end.

(** The body of [for file_element in root.findall('file')]. *)
Definition apply_file_element (root_dir project_root_abs : str)
    (st : loop_state) (file_element : Element) : loop_state :=
  let '(fs, log, file_count) := st in
  match get file_element (lit "path") with
  | None | Some [] => (fs, log ++ [SkippingNoPath], file_count)
  | Some relative_path =>
      let sanitized_path :=
        lstrip_chars [SLASH; BACKSLASH] relative_path in
      let full_path := abspath cwd (path_join root_dir sanitized_path) in
      if negb (startswith full_path project_root_abs) then
        (fs, log ++ [SkippingSecurityRisk relative_path], file_count)
      else
        let is_delete_operation :=
          lower_is_true
            (match get file_element (lit "delete") with
             | Some v => v
             | None => lit "false"
             end) in
        if is_delete_operation then
          let '(fs', log') :=
            delete_entry root_dir project_root_abs full_path
              sanitized_path fs log in
          (fs', log', file_count)
        else
          let raw_content :=
            match text file_element with Some t => t | None => [] end in
          let content := clean_content raw_content in
          write_entry root_dir full_path sanitized_path content st
  end.

Definition update_project_from_xml (fs : node)
    (root_dir input_txt_path : str) : node * list event :=
  if negb (os_path_exists cwd fs input_txt_path) then
    (fs, [UpdateFileNotFound input_txt_path])
  else
    let log := [UpdateMode; ApplyingChanges input_txt_path] in
    match read_text cwd true fs input_txt_path with
    | None => (fs, log ++ [UnexpectedError])
    | Some full_content =>
        match find start_tag full_content, rfind end_tag full_content with
        | Some start_index, Some end_index =>
            let xml_string :=
              slice full_content start_index
                    (end_index + length end_tag) in
            match ET_fromstring xml_string with
            | None => (fs, log ++ [MalformedXml input_txt_path])
            | Some root =>
                let project_root_abs := abspath cwd root_dir in
                let '(fs', log', file_count) :=
                  fold_left (apply_file_element root_dir project_root_abs)
                            (findall root (lit "file")) (fs, log, 0) in
                (fs', log' ++ [UpdateComplete file_count])
            end
        | _, _ => (fs, log ++ [NoProjectBlock input_txt_path])
        end
    end.
End Update.

(** ** [pathspec]

    The matcher library is not part of the program either.  A compiled
    [PathSpec] is known by its method [match_file] and by whether it
    holds patterns; [from_lines] stands for
    [pathspec.PathSpec.from_lines('gitwildmatch', lines)]. *)

Record PathSpec : Type := {
  has_patterns : bool;
  match_file : str -> bool
}.

(** [f.readlines()] on text already read: each line with its LF. *)
Fixpoint readlines_aux (cur : str) (s : str) : list str :=
  match s with
  | [] => match cur with [] => [] | _ => [rev cur] end
  | c :: s' =>
      if N.eqb c LF then rev (c :: cur) :: readlines_aux [] s'
      else readlines_aux (c :: cur) s'
  end.

Definition readlines (s : str) : list str := readlines_aux [] s.

(** ** [create_project_xml] *)

Section Create.
Variable from_lines : list str -> PathSpec.
Variable cwd : str.

(** [load_ignore_spec]; [None] when reading an ignore file raises, which
    nothing catches. *)
Definition load_ignore_spec (fs : node) (root_dir : str)
  : option (PathSpec * list event) :=
  let read_patterns (name : str) : option (list str) :=
    let p := path_join root_dir name in
    if os_path_exists cwd fs p then
      option_map readlines (read_text cwd true fs p)
    else Some [] in
  match read_patterns (lit ".gitignore"),
        read_patterns CUSTOM_IGNORE_FILENAME with
  | Some l1, Some l2 =>
      let all_patterns :=
        l1 ++ l2 ++ [lit ".git/"; SCRIPT_FILENAME; OUTPUT_FILENAME;
                     UPDATE_FILENAME; CUSTOM_IGNORE_FILENAME] in
      let spec := from_lines all_patterns in
      Some (spec, if has_patterns spec then [LoadedIgnoreRules] else [])
  | _, _ => None
  end.

Definition file_block (relative_path content : str) : str :=
  lit "  <file path=" ++ [DQUOTE] ++ relative_path ++ [DQUOTE]
    ++ lit "><![CDATA[" ++ content ++ lit "]]></file>".

Definition is_dir (n : node) : bool :=
  match n with Dir _ => true | File _ => false end.

(** The first loop of the walk body: the child directories that are
    kept, and the log of those that are not. *)
Definition keep_dir (spec : PathSpec) (root_dir dirpath d : str) : bool :=
  let full_dir_path := path_join dirpath d in
  let relative_dir_path := relpath cwd full_dir_path root_dir in
  let path_for_spec := replace_char BACKSLASH SLASH relative_dir_path in
  negb (match_file spec (path_for_spec ++ [SLASH])).

Definition ignored_dir_log (spec : PathSpec) (root_dir dirpath : str)
    (dirnames : list str) : list event :=
  flat_map
    (fun d =>
       if keep_dir spec root_dir dirpath d then []
       else [IgnoringDirectory
               (relpath cwd (path_join dirpath d) root_dir)])
    dirnames.

(** The second loop, for one file: the block added to [xml_parts], if
    any, and the line printed.  The file is the one the listing found,
    so opening it does not fail. *)
Definition visit_file (spec : PathSpec) (root_dir dirpath filename : str)
    (data : bytes) : list str * list event :=
  let file_path := path_join dirpath filename in
  let relative_path_for_display := relpath cwd file_path root_dir in
  if match_file spec file_path then
    ([], [IgnoringFileRule relative_path_for_display])
  else if is_binary_chunk (Some data) 1024 then
    ([], [IgnoringFileBinary relative_path_for_display])
  else
    match option_map universal_newlines (utf8_decode false data) with
    | Some content =>
        let relative_path :=
          replace_char BACKSLASH SLASH relative_path_for_display in
        ([file_block relative_path content], [AddingFile relative_path])
    | None => ([], [ErrorReading relative_path_for_display])
    end.

Definition app2 {A B : Type} (x y : list A * list B) : list A * list B :=
  (fst x ++ fst y, snd x ++ snd y).

Fixpoint visit_files (spec : PathSpec) (root_dir dirpath : str)
    (es : list (str * node)) : list str * list event :=
  match es with
  | [] => ([], [])
  | (name, File data) :: es' =>
      app2 (visit_file spec root_dir dirpath name data)
           (visit_files spec root_dir dirpath es')
  | (_, Dir _) :: es' => visit_files spec root_dir dirpath es'
  end.

Definition dirnames_of (es : list (str * node)) : list str :=
  map fst (filter (fun e => is_dir (snd e)) es).

(** [os.walk(root_dir, topdown=True)] with the loop body: at a
    directory, the child directories are filtered, the files are
    visited, then the walk descends into the kept directories in the
    order of the listing. *)
Fixpoint walk (spec : PathSpec) (root_dir dirpath : str) (n : node)
  : list str * list event :=
  match n with
  | File _ => ([], [])
  | Dir es =>
      app2 ([], ignored_dir_log spec root_dir dirpath (dirnames_of es))
        (app2 (visit_files spec root_dir dirpath es)
           ((fix descend (l : list (str * node)) : list str * list event :=
               match l with
               | [] => ([], [])
               | (d, child) :: l' =>
                   app2 (if is_dir child && keep_dir spec root_dir dirpath d
                         then walk spec root_dir (path_join dirpath d) child
                         else ([], []))
                        (descend l')
               end) es))
  end.

(** The text written to the output file, one [f.write] per chunk. *)
Definition output_chunks (xml_parts : list str) : list str :=
  [strip HEADER_TEXT; [LF; LF]; lit "<project>" ++ [LF];
   join [LF] xml_parts; [LF] ++ lit "</project>" ++ [LF]].

(** The chunks written before the encoder raises, if it does. *)
Fixpoint encode_chunks (chunks : list str) : bytes * bool :=
  match chunks with
  | [] => ([], false)
  | c :: rest =>
      match utf8_encode c with
      | None => ([], true)
      | Some b => let '(bs, raised) := encode_chunks rest in (b ++ bs, raised)
      end
  end.

(** [None] when [load_ignore_spec] raises. *)
Definition create_project_xml (fs : node) (root_dir output_file_path : str)
  : option (node * list event) :=
  let log0 := [CreateMode; ScanningProject root_dir] in
  match load_ignore_spec fs root_dir with
  | None => None
  | Some (spec, log1) =>
      let '(xml_parts, log2) :=
        match lookup (resolve cwd root_dir) fs with
        | Some tree => walk spec root_dir root_dir tree
        | None => ([], [])
        end in
      let log := log0 ++ log1 ++ log2 in
      match sys_write (resolve cwd output_file_path) [] fs with
      | None => Some (fs, log ++ [ErrorWritingOutput])
      | Some fs0 =>
          let '(data, raised) := encode_chunks (output_chunks xml_parts) in
          match sys_write (resolve cwd output_file_path) data fs0 with
          | Some fs1 =>
              Some (fs1, log ++ [if raised then ErrorWritingOutput
                                 else ContextSaved output_file_path])
          | None => Some (fs0, log ++ [ErrorWritingOutput])
          end
      end
  end.
End Create.

(** ** Instances of the two libraries, for concrete runs

    [container_fromstring] parses the documents of the container grammar:
    a [project] element whose children are [file] elements with
    attributes in double quotes and a content of character data and CDATA
    sections.  On these documents it agrees with an XML parser; anything
    else, a character reference included, is rejected. *)

Definition is_xml_space (c : char) : bool :=
  (N.eqb c 32 || N.eqb c 9 || N.eqb c 10 || N.eqb c 13)%N.

Fixpoint skip_xml_space (s : str) : str :=
  match s with
  | c :: s' => if is_xml_space c then skip_xml_space s' else s
  | [] => []
  end.

(** Splits [s] at the first occurrence of [stop]. *)
Fixpoint take_until (stop : str) (s : str) : option (str * str) :=
  match strip_prefix stop s with
  | Some r => Some ([], r)
  | None =>
      match s with
      | c :: s' =>
          match take_until stop s' with
          | Some (a, r) => Some (c :: a, r)
          | None => None
          end
      | [] => None
      end
  end.

(** Character data up to the next markup; an ampersand is rejected. *)
Fixpoint take_chardata (s : str) : option (str * str) :=
  match s with
  | [] => Some ([], [])
  | c :: s' =>
      if N.eqb c 60 then Some ([], s)
      else if N.eqb c 38 then None
      else match take_chardata s' with
           | Some (a, r) => Some (c :: a, r)
           | None => None
           end
  end.

Fixpoint parse_attrs (fuel : nat) (s : str)
  : option (list (str * str) * str) :=
  match fuel with
  | O => None
  | S fuel' =>
      let s1 := skip_xml_space s in
      match s1 with
      | [] => None
      | c :: _ =>
          if (N.eqb c 47 || N.eqb c 62)%N then Some ([], s1)
          else if negb (is_xml_space (hd 0%N s)) then None
          else
            match take_until (lit "=" ++ [DQUOTE]) s1 with
            | Some (name, s2) =>
                match take_until [DQUOTE] s2 with
                | Some (value, s3) =>
                    if existsb (fun c => N.eqb c 60 || N.eqb c 38) value
                       || existsb is_xml_space name
                    then None
                    else
                      match parse_attrs fuel' s3 with
                      | Some (a, r) =>
                          if existsb (fun kv => str_eqb (fst kv) name) a
                          then None
                          else Some ((name, value) :: a, r)
                      | None => None
                      end
                | None => None
                end
            | None => None
            end
      end
  end.

(** The content of a [file] element up to its end tag. *)
Fixpoint parse_content (fuel : nat) (s : str) : option (str * str) :=
  match fuel with
  | O => None
  | S fuel' =>
      match take_chardata s with
      | Some (t, s1) =>
          match strip_prefix (lit "</file>") s1 with
          | Some r => Some (t, r)
          | None =>
              match strip_prefix (lit "<![CDATA[") s1 with
              | Some s2 =>
                  match take_until (lit "]]>") s2 with
                  | Some (cd, s3) =>
                      match parse_content fuel' s3 with
                      | Some (t', r) => Some (t ++ cd ++ t', r)
                      | None => None
                      end
                  | None => None
                  end
              | None => None
              end
          end
      | None => None
      end
  end.

Fixpoint parse_files (fuel : nat) (s : str) : option (list Element) :=
  match fuel with
  | O => None
  | S fuel' =>
      let s1 := skip_xml_space s in
      match strip_prefix (lit "</project>") s1 with
      | Some r => match r with [] => Some [] | _ => None end
      | None =>
          match strip_prefix (lit "<file") s1 with
          | Some s2 =>
              match parse_attrs fuel' s2 with
              | Some (a, s3) =>
                  match strip_prefix (lit "/>") s3 with
                  | Some s4 =>
                      option_map (cons (Elem (lit "file") a None []))
                                 (parse_files fuel' s4)
                  | None =>
                      match strip_prefix (lit ">") s3 with
                      | Some s4 =>
                          match parse_content fuel' s4 with
                          | Some (t, s5) =>
                              option_map
                                (cons (Elem (lit "file") a
                                         (match t with
                                          | [] => None
                                          | _ => Some (universal_newlines t)
                                          end) []))
                                (parse_files fuel' s5)
                          | None => None
                          end
                      | None => None
                      end
                  end
              | None => None
              end
          | None => None
          end
      end
  end.

Definition container_fromstring (s : str) : option Element :=
  match strip_prefix (lit "<project>") s with
  | Some r =>
      option_map (Elem (lit "project") [] None) (parse_files (length s) r)
  | None => None
  end.

(** The matcher of one anchored pattern [/name]: it matches the path
    [name] at the root and the paths below it, after the normalisation of
    [match_file] (a leading [/] or [./] is dropped). *)
Definition anchored_spec (name : str) : PathSpec :=
  {| has_patterns := true;
     match_file := fun p =>
       let q := match strip_prefix [SLASH] p with
                | Some r => r
                | None => match strip_prefix (lit "./") p with
                          | Some r => r
                          | None => p
                          end
                end in
       str_eqb q name || startswith q (name ++ [SLASH]) |}.

(** ** Notions used to state the properties of the two modes *)

Fixpoint is_prefix (a b : list str) : bool :=
  match a, b with
  | [], _ => true
  | x :: a', y :: b' => str_eqb x y && is_prefix a' b'
  | _ :: _, [] => false
  end.

(** The path [p] lies strictly below the directory [root], component by
    component. *)
Definition strictly_within (root p : str) : bool :=
  is_prefix (components root) (components p)
  && Nat.ltb (length (components root)) (length (components p)).

(** The target of an entry, as the loop body computes it. *)
Definition sanitized (relative_path : str) : str :=
  lstrip_chars [SLASH; BACKSLASH] relative_path.

Definition target (cwd root_dir relative_path : str) : str :=
  abspath cwd (path_join root_dir (sanitized relative_path)).

Definition is_delete (e : Element) : bool :=
  lower_is_true (match get e (lit "delete") with
                 | Some v => v
                 | None => lit "false"
                 end).

Definition content_of (e : Element) : str :=
  clean_content (match text e with Some t => t | None => [] end).




(** ** Concrete file systems and documents for the examples *)

(** The UTF-8 bytes of a text that can be encoded. *)
Definition utf8 (s : str) : bytes :=
  match utf8_encode s with Some b => b | None => [] end.

(** A write entry and a delete entry of the container grammar. *)
Definition write_markup (path content : str) : str :=
  lit "<file path=" ++ [DQUOTE] ++ path ++ [DQUOTE] ++ lit "><![CDATA["
    ++ content ++ lit "]]></file>".

Definition delete_markup (path : str) : str :=
  lit "<file path=" ++ [DQUOTE] ++ path ++ [DQUOTE] ++ lit " delete="
    ++ [DQUOTE] ++ lit "true" ++ [DQUOTE] ++ lit " />".

Definition project_markup (entries : list str) : str :=
  lit "<project>" ++ [LF] ++ join [LF] entries ++ [LF] ++ lit "</project>".

(** The project [/home/project] holding the update file [update.txt] with
    the given text, and the other given entries. *)
Definition project_fs (update_text : str) (others : list (str * node))
  : node :=
  Dir [(lit "home",
        Dir [(lit "project",
              Dir ((lit "update.txt", File (utf8 update_text)) :: others))])].

Definition ROOT : str := lit "/home/project".
Definition UPDATE_PATH : str := lit "/home/project/update.txt".

(** One entry whose path leaves the project through a sibling directory
    that shares the root's name as a prefix. *)
Definition sibling_doc : str :=
  project_markup [write_markup (lit "../project_evil/x") (lit "owned")].




(** The directory path the walk has built after descending through the
    directories [ds] from [dirpath]. *)
Definition walk_path (dirpath : str) (ds : list str) : str :=
  fold_left path_join ds dirpath.

(** The part of [walk] that descends into the kept directories. *)
Definition descend (cwd : str) (spec : PathSpec) (root_dir dirpath : str)
  : list (str * node) -> list str * list event :=
  fix descend (l : list (str * node)) : list str * list event :=
    match l with
    | [] => ([], [])
    | (d, child) :: l' =>
        app2 (if is_dir child && keep_dir cwd spec root_dir dirpath d
              then walk cwd spec root_dir (path_join dirpath d) child
              else ([], []))
             (descend l')
    end.

(** A project with a directory [build] and a file beside it. *)
Definition build_tree (sub : list (str * node)) : node :=
  Dir [(lit "build", Dir sub); (lit "a.txt", File (utf8 (lit "hi")))].

(** A project with one file at its root, excluded by the anchored rule
    [/secret.txt]. *)
Definition secret_tree : node :=
  Dir [(lit "secret.txt", File (utf8 (lit "s3cret")))].

(** ** Normal absolute paths

    A name of a directory entry is not empty, holds no separator and is
    neither [.] nor [..].  [abs_path cs] is the absolute path with the
    components [cs]: the form [abspath] returns. *)

Definition good_name (c : str) : bool :=
  nonempty c && negb (existsb (N.eqb SLASH) c)
  && negb (str_eqb c DOT) && negb (str_eqb c DOTDOT).

Definition no_slash (s : str) : Prop := Forall (fun c => c <> SLASH) s.

Definition slashed (cs : list str) : str := flat_map (cons SLASH) cs.

Definition abs_path (cs : list str) : str :=
  match cs with [] => [SLASH] | _ => slashed cs end.

(** A project with a file alone in a subdirectory, and the document that
    deletes it. *)
Definition delete_doc : str :=
  project_markup [delete_markup (lit "sub/only.txt")].

Definition delete_fs : node :=
  project_fs delete_doc [(lit "sub", Dir [(lit "only.txt", File [120%N])])].

(** ** The round trip: what a snapshot holds *)

(** A name that is good and holds no backslash either. *)
Definition plain_name (c : str) : bool :=
  good_name c && negb (existsb (N.eqb BACKSLASH) c).

Fixpoint nodupb (l : list str) : bool :=
  match l with
  | [] => true
  | x :: l' => negb (existsb (str_eqb x) l') && nodupb l'
  end.

(** Every directory of the tree lists plain names, each once. *)
Fixpoint plain_tree (n : node) : bool :=
  match n with
  | File _ => true
  | Dir es =>
      nodupb (map fst es)
      && (fix all (l : list (str * node)) : bool :=
            match l with
            | [] => true
            | (k, v) :: l' => plain_name k && plain_tree v && all l'
            end) es
  end.

(** The files of a tree with their paths, in the order of the walk: the
    files of a directory first, then those of its subdirectories. *)
Definition files_here (es : list (str * node)) : list (list str * bytes) :=
  flat_map (fun e => match snd e with
                     | File data => [([fst e], data)]
                     | Dir _ => []
                     end) es.

Definition under (d : str) (f : list str * bytes) : list str * bytes :=
  (d :: fst f, snd f).

Fixpoint tree_files (n : node) : list (list str * bytes) :=
  match n with
  | File _ => []
  | Dir es =>
      files_here es
      ++ (fix sub (l : list (str * node)) : list (list str * bytes) :=
            match l with
            | [] => []
            | (d, child) :: l' => map (under d) (tree_files child) ++ sub l'
            end) es
  end.

Definition sub_files : list (str * node) -> list (list str * bytes) :=
  fix sub (l : list (str * node)) : list (list str * bytes) :=
    match l with
    | [] => []
    | (d, child) :: l' => map (under d) (tree_files child) ++ sub l'
    end.

Definition all_plain : list (str * node) -> bool :=
  fix all (l : list (str * node)) : bool :=
    match l with
    | [] => true
    | (k, v) :: l' => plain_name k && plain_tree v && all l'
    end.

(** Induction on a tree, with the hypothesis for every entry of a
    directory. *)
Fixpoint node_induction (P : node -> Prop)
    (HF : forall d, P (File d))
    (HD : forall es, Forall (fun e => P (snd e)) es -> P (Dir es))
    (n : node) : P n :=
  match n with
  | File d => HF d
  | Dir es =>
      HD es ((fix go (l : list (str * node))
                : Forall (fun e => P (snd e)) l :=
                match l with
                | [] => Forall_nil _
                | e :: l' =>
                    Forall_cons e (node_induction P HF HD (snd e)) (go l')
                end) es)
  end.

(** The text the snapshot holds for a file. *)
Definition snapshot_text (data : bytes) : str :=
  match utf8_decode false data with
  | Some c => universal_newlines c
  | None => []
  end.

(** The file is the UTF-8 encoding of a text that the cleaner leaves as it
    is. *)
Definition clean_text (data : bytes) : bool :=
  match utf8_decode false data with
  | Some c =>
      match utf8_encode c with
      | Some data' => str_eqb data' data
      | None => false
      end
      && str_eqb (clean_content c) c
  | None => false
  end.

(** The entry of a file in the snapshot (its path relative to the root and
    its text), the block that spells it, and the element a parser makes
    of the block. *)
Definition entry_of (f : list str * bytes) : str * str :=
  (join [SLASH] (fst f), snapshot_text (snd f)).

Definition block_of (e : str * str) : str := file_block (fst e) (snd e).

Definition element_of (e : str * str) : Element :=
  Elem (lit "file") [(lit "path", fst e)]
       (match snd e with [] => None | c => Some c end) [].

Definition entries (tree : node) : list (str * str) :=
  map entry_of (tree_files tree).

Definition is_adding (e : event) : bool :=
  match e with AddingFile _ => true | _ => false end.

(** The parser turns the document of these entries into their elements. *)
Definition parses_to (ET_fromstring : str -> option Element)
    (es : list (str * str)) : Prop :=
  exists root,
    ET_fromstring (project_markup (map block_of es)) = Some root /\
    findall root (lit "file") = map element_of es.

(** A project to snapshot, and a file system whose project directory is
    empty and whose update file holds the given text. *)
Definition sample_tree : node :=
  Dir [(lit "a.txt", File (utf8 (lit "hi")));
       (lit "src", Dir [(lit "m.py", File (utf8 (lit "x = 1")))])].

Definition empty_project_fs (update_text : str) : node :=
  Dir [(lit "home", Dir [(lit "project", Dir [])]);
       (lit "tmp", Dir [(lit "update.txt", File (utf8 update_text))])].

(** A text file in Latin-1 and a file whose name holds a backslash. *)
Definition latin1_tree : node :=
  Dir [(lit "cafe.txt", File [99; 97; 102; 233]%N)].

Definition backslash_tree : node :=
  Dir [(lit "a" ++ [BACKSLASH] ++ lit "b.txt", File (utf8 (lit "hi")))].

(** The file system after [create_project_xml] has written the snapshot
    of [tree], the project [/src], to [/tmp/update.txt]. *)
Definition snapshot_fs (spec : PathSpec) (tree : node) : option node :=
  option_map fst
    (create_project_xml (fun _ => spec) (lit "/")
       (Dir [(lit "src", tree);
             (lit "home", Dir [(lit "project", Dir [])]);
             (lit "tmp", Dir [])])
       (lit "/src") (lit "/tmp/update.txt")).

(** A matcher without rule. *)
Definition no_rule : PathSpec :=
  {| has_patterns := false; match_file := fun _ => false |}.

(** The file system [fs] holds, below the directory [rs], nothing that the
    tree [tree] does not hold at the same place. *)
Definition agrees (tree fs : node) (rs : list str) : Prop :=
  stat fs [] = Some KDir /\ stat fs rs = Some KDir /\
  forall q k, q <> [] -> stat fs (rs ++ q) = Some k -> stat tree q = Some k.

(** The files of [l] are files of [tree], with plain paths and clean
    text. *)
Definition clean_files (tree : node) (l : list (list str * bytes)) : Prop :=
  forall comps data, In (comps, data) l ->
    stat tree comps = Some (KFile data) /\
    forallb plain_name comps = true /\ comps <> [] /\
    clean_text data = true.

(** What [create_project_xml] writes after its preamble: the container
    block and the line feed that ends the file. *)
Definition snapshot_block (xml_parts : list str) : str :=
  concat (skipn 2 (output_chunks xml_parts)).

(** The project [tree] walked as [/src] without rule, and the file system
    whose update file holds the snapshot of [tree] without its preamble. *)
Definition walk_src (tree : node) : list str * list event :=
  walk (lit "/") no_rule (abs_path [lit "src"]) (abs_path [lit "src"]) tree.

Definition block_fs (tree : node) : node :=
  empty_project_fs (snapshot_block (fst (walk_src tree))).

Definition TMP_UPDATE : str := lit "/tmp/update.txt".

(** * Properties *)

(** ** Strings *)

Lemma str_eqb_eq (a b : str) : str_eqb a b = true <-> a = b.
Proof.
  revert b; induction a as [|x a IH]; intros [|y b]; simpl;
    try (split; (discriminate || reflexivity)).
  rewrite andb_true_iff, N.eqb_eq, IH.
  split; [intros [-> ->]; reflexivity | intros H; inversion H; auto].
Qed.

Lemma strip_prefix_Some (p s r : str) :
  strip_prefix p s = Some r -> s = p ++ r.
Proof.
  revert s; induction p as [|x p IH]; intros s; simpl.
  - intros H; inversion H; reflexivity.
  - destruct s as [|y s]; [discriminate|].
    destruct (N.eqb_spec x y) as [->|]; [|discriminate].
    intros H; rewrite (IH _ H); reflexivity.
Qed.

Lemma strip_prefix_app (p r : str) : strip_prefix p (p ++ r) = Some r.
Proof.
  induction p as [|x p IH]; simpl; [reflexivity|].
  rewrite N.eqb_refl; exact IH.
Qed.

(** Induction on a list two elements at a time, as [splitlines_aux]
    recurses. *)
Lemma list_ind2 {A : Type} (P : list A -> Prop) :
  P [] -> (forall a, P [a]) ->
  (forall a b l, P l -> P (b :: l) -> P (a :: b :: l)) ->
  forall l, P l.
Proof.
  intros H0 H1 H2 l.
  assert (H : P l /\ forall a, P (a :: l)).
  { induction l as [|b l [IHl IHbl]]; [split; auto|].
    split; [apply IHbl|]. intros a. apply H2; [exact IHl | apply IHbl]. }
  apply H.
Qed.

(** ** [splitlines] *)

Lemma is_linebreak_LF : is_linebreak LF = true.
Proof. reflexivity. Qed.

Lemma CR_is_linebreak (c : char) : N.eqb c CR = true -> is_linebreak c = true.
Proof. rewrite N.eqb_eq; intros ->; reflexivity. Qed.

(** No line of [splitlines] contains a line boundary. *)
Lemma splitlines_aux_no_break (s cur : str) :
  no_break cur -> Forall no_break (splitlines_aux cur s).
Proof.
  revert cur; induction s as [| a | a b s IHs IHbs] using list_ind2;
    intros cur Hcur.
  - simpl. destruct cur; constructor; [|constructor].
    apply Forall_rev; exact Hcur.
  - simpl. destruct (N.eqb a CR); [|destruct (is_linebreak a) eqn:Ea].
    + repeat constructor. apply Forall_rev; exact Hcur.
    + repeat constructor. apply Forall_rev; exact Hcur.
    + simpl. repeat constructor. apply Forall_app; split.
      * apply Forall_rev; exact Hcur.
      * repeat constructor; assumption.
  - change (splitlines_aux cur (a :: b :: s)) with
      (if N.eqb a CR then
         if N.eqb b LF then rev cur :: splitlines_aux [] s
         else rev cur :: splitlines_aux [] (b :: s)
       else if is_linebreak a then rev cur :: splitlines_aux [] (b :: s)
       else splitlines_aux (a :: cur) (b :: s)).
    destruct (N.eqb a CR); [destruct (N.eqb b LF)|
                            destruct (is_linebreak a) eqn:Ea].
    + constructor; [apply Forall_rev; exact Hcur | apply IHs; constructor].
    + constructor; [apply Forall_rev; exact Hcur | apply IHbs; constructor].
    + constructor; [apply Forall_rev; exact Hcur | apply IHbs; constructor].
    + apply IHbs. constructor; assumption.
Qed.

Lemma splitlines_no_break (s : str) : Forall no_break (splitlines s).
Proof. apply splitlines_aux_no_break; constructor. Qed.

Lemma join_cons (sep x y : str) (l : list str) :
  join sep (x :: y :: l) = x ++ sep ++ join sep (y :: l).
Proof. reflexivity. Qed.

Lemma no_break_app (a b : str) : no_break (a ++ b) <-> no_break a /\ no_break b.
Proof. apply Forall_app. Qed.

Lemma join_only_LF (l : list str) :
  Forall no_break l ->
  Forall (fun c => is_linebreak c = true -> c = LF) (join [LF] l).
Proof.
  induction 1 as [|x l Hx Hl IH]; [constructor|].
  destruct l as [|y l].
  - simpl. eapply Forall_impl; [|exact Hx]. simpl; congruence.
  - rewrite join_cons. apply Forall_app; split.
    + eapply Forall_impl; [|exact Hx]. simpl; congruence.
    + constructor; [reflexivity | exact IH].
Qed.

Lemma Forall_filter_keep {A : Type} (P : A -> Prop) (f : A -> bool) (l : list A) :
  Forall P l -> Forall P (filter f l).
Proof.
  rewrite !Forall_forall. intros H x Hx.
  apply filter_In in Hx. apply H, Hx.
Qed.

Lemma clean_content_only_LF (x : str) :
  Forall (fun c => is_linebreak c = true -> c = LF) (clean_content x).
Proof.
  unfold clean_content. apply join_only_LF, Forall_filter_keep,
    splitlines_no_break.
Qed.

(** ** Counting line boundaries *)

Lemma count_breaks_app (a b : str) :
  count_breaks (a ++ b) = count_breaks a + count_breaks b.
Proof. unfold count_breaks. rewrite filter_app, length_app. reflexivity. Qed.

Lemma count_breaks_cons (c : char) (s : str) :
  count_breaks (c :: s) = (if is_linebreak c then 1 else 0) + count_breaks s.
Proof. unfold count_breaks. simpl. destruct (is_linebreak c); reflexivity. Qed.

Lemma count_breaks_no_break (s : str) : no_break s -> count_breaks s = 0.
Proof.
  induction 1 as [|c s Hc Hs IH]; [reflexivity|].
  rewrite count_breaks_cons, Hc, IH. reflexivity.
Qed.

Lemma count_breaks_join (l : list str) :
  Forall no_break l -> count_breaks (join [LF] l) = length l - 1.
Proof.
  induction 1 as [|x l Hx Hl IH]; [reflexivity|].
  destruct l as [|y l].
  - simpl. apply count_breaks_no_break, Hx.
  - rewrite join_cons, count_breaks_app.
    change ([LF] ++ join [LF] (y :: l)) with (LF :: join [LF] (y :: l)).
    rewrite count_breaks_cons, IH, (count_breaks_no_break _ Hx).
    simpl. lia.
Qed.

Lemma ends_withb_cons (p : char -> bool) (a b : char) (s : str) :
  ends_withb p (a :: b :: s) = ends_withb p (b :: s).
Proof. reflexivity. Qed.

Lemma ends_withb_app (p : char -> bool) (a b : str) :
  ends_withb p b = true -> ends_withb p (a ++ b) = true.
Proof.
  intros Hb. induction a as [|x a IH]; [exact Hb|].
  simpl app. destruct (a ++ b) as [|y t] eqn:E.
  - destruct a, b; discriminate.
  - rewrite ends_withb_cons. exact IH.
Qed.

Lemma ends_withb_snoc (p : char -> bool) (s : str) (c : char) :
  ends_withb p (s ++ [c]) = p c.
Proof.
  induction s as [|x s IH]; [reflexivity|].
  simpl app. destruct (s ++ [c]) as [|y t] eqn:E.
  - destruct s; discriminate.
  - rewrite ends_withb_cons. exact IH.
Qed.

Lemma ends_with_iff (p : char -> bool) (s : str) :
  ends_with p s <-> ends_withb p s = true.
Proof.
  split.
  - intros (s0 & c & -> & Hc). rewrite ends_withb_snoc. exact Hc.
  - intros H. destruct s as [|x s] using rev_ind; [discriminate|].
    rewrite ends_withb_snoc in H. exists s, x. auto.
Qed.

(** [splitlines] yields at most one line per boundary, plus one for a
    last line without terminator. *)
Lemma splitlines_aux_length (s cur : str) :
  length (splitlines_aux cur s) <= count_breaks s + 1 /\
  (ends_withb is_linebreak s = true ->
   length (splitlines_aux cur s) <= count_breaks s).
Proof.
  revert cur; induction s as [| a | a b s IHs IHbs] using list_ind2;
    intros cur.
  - simpl. split; [destruct cur; simpl; lia | discriminate].
  - simpl ends_withb. rewrite count_breaks_cons. simpl splitlines_aux.
    destruct (N.eqb a CR) eqn:Ecr.
    + rewrite (CR_is_linebreak _ Ecr). simpl. lia.
    + destruct (is_linebreak a); simpl; [lia|].
      split; [lia | discriminate].
  - change (splitlines_aux cur (a :: b :: s)) with
      (if N.eqb a CR then
         if N.eqb b LF then rev cur :: splitlines_aux [] s
         else rev cur :: splitlines_aux [] (b :: s)
       else if is_linebreak a then rev cur :: splitlines_aux [] (b :: s)
       else splitlines_aux (a :: cur) (b :: s)).
    rewrite ends_withb_cons, (count_breaks_cons a).
    destruct (N.eqb a CR) eqn:Ecr.
    + rewrite (CR_is_linebreak _ Ecr).
      destruct (N.eqb_spec b LF) as [->|Hb].
      * rewrite count_breaks_cons, is_linebreak_LF.
        destruct (IHs []) as [H1 H2]. cbn [length]. split; [lia|].
        intros He. destruct s as [|c s]; [simpl; lia|].
        rewrite ends_withb_cons in He. specialize (H2 He). lia.
      * destruct (IHbs []) as [H1 H2]. cbn [length]. split; [lia|].
        intros He. specialize (H2 He). lia.
    + destruct (is_linebreak a).
      * destruct (IHbs []) as [H1 H2]. cbn [length]. split; [lia|].
        intros He. specialize (H2 He). lia.
      * destruct (IHbs (a :: cur)) as [H1 H2]. split; [lia|].
        intros He. specialize (H2 He). lia.
Qed.

(** ** The repair patterns: what a match covers *)

Section Combinators.
Variable closer : str.

Lemma lazy_dot_Some (k : str -> option (str * str)) :
  (forall s g r, k s = Some (g, r) -> s = g ++ closer ++ r) ->
  forall s g r, lazy_dot k s = Some (g, r) -> s = g ++ closer ++ r.
Proof.
  intros Hk s; induction s as [|c s IH]; intros g r; simpl.
  - destruct (k []) as [[g' r']|] eqn:E; [|discriminate].
    intros H; inversion H; subst. apply Hk, E.
  - destruct (k (c :: s)) as [[g' r']|] eqn:E.
    + intros H; inversion H; subst. apply Hk, E.
    + destruct (N.eqb c LF); [discriminate|].
      destruct (lazy_dot k s) as [[g' r']|] eqn:E'; [|discriminate].
      intros H; inversion H; subst. rewrite (IH _ _ eq_refl). reflexivity.
Qed.

Lemma close_brace_Some (s g r : str) :
  close_brace closer s = Some (g, r) -> s = g ++ closer ++ r.
Proof.
  unfold close_brace.
  destruct (strip_prefix _ s) as [r'|] eqn:E; [|discriminate].
  intros H; inversion H; subst. apply strip_prefix_Some in E.
  rewrite E, <- app_assoc. reflexivity.
Qed.

Lemma placeholder_Some (s g r : str) :
  placeholder closer s = Some (g, r) -> s = g ++ closer ++ r.
Proof.
  unfold placeholder.
  destruct (strip_prefix _ s) as [s'|] eqn:E; [|discriminate].
  destruct (lazy_dot _ s') as [[g' r']|] eqn:E'; [|discriminate].
  intros H; inversion H; subst. apply strip_prefix_Some in E.
  apply (lazy_dot_Some _ close_brace_Some) in E'.
  rewrite E, E'. simpl. reflexivity.
Qed.

Lemma group2_Some (s g r : str) :
  group2 closer s = Some (g, r) -> s = g ++ closer ++ r.
Proof.
  unfold group2. destruct s as [|c s]; [discriminate|].
  destruct (is_quote c); [discriminate|].
  destruct (lazy_dot _ s) as [[g' r']|] eqn:E'; [|discriminate].
  intros H; inversion H; subst.
  apply (lazy_dot_Some _ placeholder_Some) in E'.
  rewrite E'. reflexivity.
Qed.
End Combinators.

Lemma greedy_space_Some (X : Type) (k : str -> option X) (s ws : str) (x : X) :
  greedy_space k s = Some (ws, x) -> exists t, s = ws ++ t /\ k t = Some x.
Proof.
  revert ws x; induction s as [|c s IH]; intros ws x; simpl.
  - destruct (k []) eqn:E; simpl; [|discriminate].
    intros H; inversion H; subst. exists []; auto.
  - assert (Hk : option_map (pair []) (k (c :: s)) = Some (ws, x) ->
                 exists t, c :: s = ws ++ t /\ k t = Some x).
    { destruct (k (c :: s)) eqn:E; simpl; [|discriminate].
      intros H; inversion H; subst. exists (c :: s); auto. }
    destruct (is_space c); [|exact Hk].
    destruct (greedy_space k s) as [[ws' x']|] eqn:E; [|exact Hk].
    intros H; inversion H; subst.
    destruct (IH _ _ eq_refl) as (t & -> & Ht). exists t; auto.
Qed.

Lemma match_func_names_Some (names : list str) (s g1 g2 r : str) :
  match_func_names names s = Some (g1, g2, r) ->
  s = g1 ++ lit "(" ++ g2 ++ lit ");" ++ r.
Proof.
  induction names as [|name names IH]; simpl; [discriminate|].
  destruct (strip_prefix _ s) as [s'|] eqn:E; [|exact IH].
  destruct (group2 _ s') as [[g r']|] eqn:E'; [|exact IH].
  intros H; inversion H; subst.
  apply strip_prefix_Some in E. apply group2_Some in E'.
  rewrite E, E', <- ?app_assoc. reflexivity.
Qed.

Lemma pattern_func_Some (s g1 g2 r : str) :
  pattern_func s = Some (g1, g2, r) ->
  s = g1 ++ lit "(" ++ g2 ++ lit ");" ++ r.
Proof. apply match_func_names_Some. Qed.

Lemma pattern_assign_Some (s g1 g2 r : str) :
  pattern_assign s = Some (g1, g2, r) -> s = g1 ++ g2 ++ lit ";" ++ r.
Proof.
  unfold pattern_assign.
  destruct (strip_prefix _ s) as [s1|] eqn:E; [|discriminate].
  destruct (greedy_space _ s1) as [[ws1 [ws2 [g r']]]|] eqn:E1;
    [|discriminate].
  intros H; inversion H; subst.
  apply strip_prefix_Some in E.
  apply greedy_space_Some in E1. destruct E1 as (t & -> & Ht).
  destruct (strip_prefix _ t) as [s2|] eqn:E2; [|discriminate].
  apply strip_prefix_Some in E2.
  apply greedy_space_Some in Ht. destruct Ht as (t' & -> & Ht').
  apply group2_Some in Ht'. subst. simpl. rewrite <- ?app_assoc.
  reflexivity.
Qed.

(** ** [re.sub] *)

Section Sub.
Variable pat : str -> option (str * str * str).
Variable repl : str -> str -> str.
Variable len : str -> str -> nat.

(** A match covers a text [M] followed by a semicolon; its replacement
    has the line boundaries of [M]. *)
Hypothesis Hpat : forall s g1 g2 r,
  pat s = Some (g1, g2, r) ->
  exists M : str, s = M ++ [59%N] ++ r /\ len g1 g2 = S (length M) /\
            count_breaks (repl g1 g2) = count_breaks M.

Lemma match_tail (c : char) (s' M r : str) :
  c :: s' = M ++ [59%N] ++ r ->
  exists M' : str, s' = M' ++ r /\ length M' = length M /\
             count_breaks (c :: M') = count_breaks M.
Proof.
  destruct M as [|m M]; simpl; intros H; inversion H; subst.
  - exists []. repeat split.
  - exists (M ++ [59%N]). rewrite <- app_assoc. repeat split.
    + rewrite length_app. simpl. lia.
    + rewrite !count_breaks_cons, count_breaks_app.
      change (count_breaks [59%N]) with 0. lia.
Qed.

Lemma sub_aux_count (s : str) (skip : nat) :
  skip <= length s ->
  count_breaks (sub_aux pat repl len skip s) = count_breaks (skipn skip s).
Proof.
  revert skip; induction s as [|c s IH]; intros skip Hs.
  - destruct skip; reflexivity.
  - destruct skip as [|k]; simpl in *.
    + destruct (pat (c :: s)) as [[[g1 g2] r]|] eqn:E.
      * destruct (Hpat _ _ _ _ E) as (M & HM & Hlen & Hc).
        destruct (match_tail _ _ _ _ HM) as (M' & -> & HlM & HcM).
        rewrite Hlen. simpl. rewrite Nat.sub_0_r.
        rewrite count_breaks_app, IH by (rewrite length_app; lia).
        rewrite <- HlM, skipn_app, skipn_all, Nat.sub_diag. simpl.
        rewrite Hc, <- HcM.
        rewrite (count_breaks_cons c (M' ++ r)), count_breaks_app.
        rewrite count_breaks_cons. lia.
      * rewrite !count_breaks_cons, (IH 0) by lia. reflexivity.
    + apply IH. lia.
Qed.

Lemma sub_aux_ends (c : char) (s : str) (skip : nat) :
  is_linebreak c = true -> skip <= length s ->
  ends_withb is_linebreak (sub_aux pat repl len skip (s ++ [c])) = true.
Proof.
  intros Hc. revert skip; induction s as [|a s IH]; intros skip Hs.
  - destruct skip; [|simpl in Hs; lia]. simpl.
    destruct (pat [c]) as [[[g1 g2] r]|] eqn:E; [|exact Hc].
    destruct (Hpat _ _ _ _ E) as (M & HM & _).
    destruct M as [|m M]; inversion HM; subst; [discriminate|].
    destruct M; discriminate.
  - destruct skip as [|k]; simpl in *; [|apply IH; lia].
    destruct (pat (a :: s ++ [c])) as [[[g1 g2] r]|] eqn:E.
    + destruct (Hpat _ _ _ _ E) as (M & HM & Hlen & _).
      apply ends_withb_app. rewrite Hlen. simpl. rewrite Nat.sub_0_r.
      apply IH.
      assert (Hl : length (a :: s ++ [c]) = length (M ++ [59%N] ++ r))
        by (rewrite HM; reflexivity).
      simpl in Hl. rewrite !length_app in Hl. simpl in Hl.
      destruct r as [|b r] using rev_ind; [|rewrite length_app in Hl;
                                            simpl in Hl; lia].
      exfalso. change (a :: s ++ [c] = M ++ [59%N]) in HM.
      change (a :: s ++ [c]) with ((a :: s) ++ [c]) in HM.
      apply app_inj_tail in HM.
      destruct HM as [_ ->]. discriminate.
    + change (a :: sub_aux pat repl len 0 (s ++ [c])) with
        ([a] ++ sub_aux pat repl len 0 (s ++ [c])).
      apply ends_withb_app, IH. lia.
Qed.
End Sub.

Lemma count_breaks_lit_free (a b : str) :
  count_breaks a = 0 -> count_breaks (a ++ b) = count_breaks b.
Proof. intros H. rewrite count_breaks_app, H. reflexivity. Qed.

Lemma pattern_func_covers (s g1 g2 r : str) :
  pattern_func s = Some (g1, g2, r) ->
  exists M : str, s = M ++ [59%N] ++ r /\ len_func g1 g2 = S (length M) /\
            count_breaks (repl_func g1 g2) = count_breaks M.
Proof.
  intros H. apply pattern_func_Some in H.
  exists (g1 ++ lit "(" ++ g2 ++ lit ")"). repeat split.
  - rewrite H, <- !app_assoc. reflexivity.
  - unfold len_func. rewrite !length_app. simpl. lia.
  - unfold repl_func. rewrite !count_breaks_app.
    change (count_breaks (lit "(`")) with 0.
    change (count_breaks (lit "`);")) with 0.
    change (count_breaks (lit "(")) with 0.
    change (count_breaks (lit ")")) with 0. lia.
Qed.

Lemma pattern_assign_covers (s g1 g2 r : str) :
  pattern_assign s = Some (g1, g2, r) ->
  exists M : str, s = M ++ [59%N] ++ r /\ len_assign g1 g2 = S (length M) /\
            count_breaks (repl_assign g1 g2) = count_breaks M.
Proof.
  intros H. apply pattern_assign_Some in H.
  exists (g1 ++ g2). repeat split.
  - rewrite H, <- !app_assoc. reflexivity.
  - unfold len_assign. rewrite !length_app. lia.
  - unfold repl_assign. rewrite !count_breaks_app.
    change (count_breaks (lit "`")) with 0.
    change (count_breaks (lit "`;")) with 0. lia.
Qed.

(** Both substitutions keep the number of line boundaries and a final
    line boundary. *)
Lemma subs_count (x : str) :
  count_breaks (sub_assign (sub_func x)) = count_breaks x.
Proof.
  unfold sub_assign, sub_func.
  rewrite (sub_aux_count _ _ _ pattern_assign_covers) by lia.
  cbn [skipn].
  rewrite (sub_aux_count _ _ _ pattern_func_covers) by lia.
  reflexivity.
Qed.

Lemma subs_ends (x : str) :
  ends_with is_linebreak x ->
  ends_with is_linebreak (sub_assign (sub_func x)).
Proof.
  intros (x0 & c & -> & Hc).
  assert (H1 : ends_with is_linebreak (sub_func (x0 ++ [c]))).
  { apply ends_with_iff.
    apply (sub_aux_ends _ _ _ pattern_func_covers); [exact Hc | lia]. }
  destruct H1 as (y0 & d & -> & Hd).
  apply ends_with_iff.
  apply (sub_aux_ends _ _ _ pattern_assign_covers); [exact Hd | lia].
Qed.

Lemma ends_with_count (x : str) :
  ends_with is_linebreak x -> 1 <= count_breaks x.
Proof.
  intros (x0 & c & -> & Hc).
  rewrite count_breaks_app, count_breaks_cons, Hc. lia.
Qed.

Lemma filter_length_le {A : Type} (f : A -> bool) (l : list A) :
  length (filter f l) <= length l.
Proof.
  induction l as [|a l IH]; simpl; [lia|]. destruct (f a); simpl; lia.
Qed.

(** The cleaner's output has fewer line boundaries than an input that
    ends with one. *)
Lemma clean_content_drops_boundary (x : str) :
  ends_with is_linebreak x ->
  count_breaks (clean_content x) < count_breaks x.
Proof.
  intros Hx. unfold clean_content.
  rewrite count_breaks_join
    by apply Forall_filter_keep, splitlines_no_break.
  pose proof (filter_length_le keep_line
                (splitlines (sub_assign (sub_func x)))) as Hf.
  destruct (splitlines_aux_length (sub_assign (sub_func x)) []) as [_ Hl].
  specialize (Hl (proj1 (ends_with_iff _ _) (subs_ends _ Hx))).
  rewrite subs_count in Hl. apply ends_with_count in Hx.
  unfold splitlines in *. lia.
Qed.

(** ** Texts without placeholder *)

Lemma has_placeholder_cons (c : char) (s : str) :
  has_placeholder (c :: s) = false -> has_placeholder s = false.
Proof. simpl. intros H. apply orb_false_iff in H. apply H. Qed.

Lemma has_placeholder_app (a b : str) :
  has_placeholder (a ++ b) = false ->
  has_placeholder a = false /\ has_placeholder b = false.
Proof.
  induction a as [|c a IH]; simpl; [auto|].
  intros H. apply orb_false_iff in H. destruct H as [H1 H2].
  destruct (IH H2) as [Ha Hb]. split; [|exact Hb].
  rewrite Ha, orb_false_r.
  destruct (N.eqb c 36); [|reflexivity]. simpl in *.
  destruct a as [|d a]; [reflexivity|exact H1].
Qed.

Lemma has_placeholder_join (l : list str) :
  Forall (fun x => has_placeholder x = false) l ->
  has_placeholder (join [LF] l) = false.
Proof.
  assert (Happ : forall a b, has_placeholder a = false ->
                   has_placeholder b = false ->
                   has_placeholder (a ++ LF :: b) = false).
  { intros a b Ha Hb. induction a as [|c a IH]; simpl.
    - exact Hb.
    - simpl in Ha. apply orb_false_iff in Ha. destruct Ha as [H1 H2].
      rewrite (IH H2), orb_false_r.
      destruct (N.eqb c 36); [|reflexivity]. simpl in *.
      destruct a as [|d a]; [reflexivity|exact H1]. }
  induction 1 as [|x l Hx Hl IH]; [reflexivity|].
  destruct l as [|y l]; [exact Hx|].
  rewrite join_cons. apply Happ; assumption.
Qed.

Lemma splitlines_aux_no_placeholder (s cur : str) :
  has_placeholder (rev cur ++ s) = false ->
  Forall (fun x => has_placeholder x = false) (splitlines_aux cur s).
Proof.
  revert cur; induction s as [| a | a b s IHs IHbs] using list_ind2;
    intros cur H.
  - rewrite app_nil_r in H. simpl. destruct cur; repeat constructor.
    exact H.
  - pose proof (proj1 (has_placeholder_app _ _ H)) as Hc. simpl.
    destruct (N.eqb a CR); [|destruct (is_linebreak a)];
      repeat constructor; assumption.
  - change (splitlines_aux cur (a :: b :: s)) with
      (if N.eqb a CR then
         if N.eqb b LF then rev cur :: splitlines_aux [] s
         else rev cur :: splitlines_aux [] (b :: s)
       else if is_linebreak a then rev cur :: splitlines_aux [] (b :: s)
       else splitlines_aux (a :: cur) (b :: s)).
    destruct (has_placeholder_app _ _ H) as [Hc Hs].
    pose proof (has_placeholder_cons _ _ Hs) as Hbs.
    pose proof (has_placeholder_cons _ _ Hbs) as Hss.
    destruct (N.eqb a CR); [destruct (N.eqb b LF)|destruct (is_linebreak a)].
    + constructor; [exact Hc | apply IHs; exact Hss].
    + constructor; [exact Hc | apply IHbs; exact Hbs].
    + constructor; [exact Hc | apply IHbs; exact Hbs].
    + apply IHbs. simpl rev. rewrite <- app_assoc. exact H.
Qed.

Lemma no_placeholder_prefix (s : str) :
  has_placeholder s = false -> strip_prefix (lit "${") s = None.
Proof.
  change (lit "${") with [36%N; 123%N].
  destruct s as [|c [|d s]]; cbn [strip_prefix has_placeholder];
    try reflexivity.
  - destruct (N.eqb 36 c); reflexivity.
  - rewrite (N.eqb_sym 36 c), (N.eqb_sym 123 d).
    destruct (N.eqb c 36); [|reflexivity].
    destruct (N.eqb d 123); [discriminate|reflexivity].
Qed.

Lemma lazy_dot_placeholder_None (closer s : str) :
  has_placeholder s = false -> lazy_dot (placeholder closer) s = None.
Proof.
  induction s as [|c s IH]; intros H.
  - reflexivity.
  - cbn [lazy_dot]. unfold placeholder at 1.
    rewrite (no_placeholder_prefix _ H).
    rewrite (IH (has_placeholder_cons _ _ H)).
    destruct (N.eqb c LF); reflexivity.
Qed.

Lemma group2_None (closer s : str) :
  has_placeholder s = false -> group2 closer s = None.
Proof.
  destruct s as [|c s]; [reflexivity|]. intros H. unfold group2.
  rewrite (lazy_dot_placeholder_None _ _ (has_placeholder_cons _ _ H)).
  destruct (is_quote c); reflexivity.
Qed.

Lemma pattern_func_None (s : str) :
  has_placeholder s = false -> pattern_func s = None.
Proof.
  intros H. unfold pattern_func. generalize func_names.
  induction l as [|name names IH]; [reflexivity|]. simpl.
  destruct (strip_prefix _ s) as [s'|] eqn:E; [|exact IH].
  apply strip_prefix_Some in E. rewrite E in H.
  rewrite (group2_None _ _ (proj2 (has_placeholder_app _ _ H))).
  exact IH.
Qed.

Lemma greedy_space_None {X : Type} (k : str -> option X) (s : str) :
  (forall t, has_placeholder t = false -> k t = None) ->
  has_placeholder s = false -> greedy_space k s = None.
Proof.
  intros Hk. induction s as [|c s IH]; intros H; simpl.
  - rewrite (Hk _ H). reflexivity.
  - rewrite (Hk _ H), (IH (has_placeholder_cons _ _ H)).
    destruct (is_space c); reflexivity.
Qed.

Lemma pattern_assign_None (s : str) :
  has_placeholder s = false -> pattern_assign s = None.
Proof.
  intros H. unfold pattern_assign.
  destruct (strip_prefix _ s) as [s1|] eqn:E; [|reflexivity].
  apply strip_prefix_Some in E. rewrite E in H.
  apply has_placeholder_app in H. destruct H as [_ H].
  rewrite greedy_space_None; [reflexivity| |exact H].
  intros t Ht. destruct (strip_prefix _ t) as [s2|] eqn:E2; [|reflexivity].
  apply strip_prefix_Some in E2. rewrite E2 in Ht.
  apply has_placeholder_app in Ht. destruct Ht as [_ Ht].
  apply greedy_space_None; [|exact Ht].
  intros u Hu. apply group2_None, Hu.
Qed.

Lemma sub_aux_no_match pat repl len (s : str) :
  (forall t, has_placeholder t = false -> pat t = None) ->
  has_placeholder s = false -> sub_aux pat repl len 0 s = s.
Proof.
  intros Hp. induction s as [|c s IH]; intros H; [reflexivity|].
  cbn [sub_aux]. rewrite (Hp _ H), (IH (has_placeholder_cons _ _ H)).
  reflexivity.
Qed.

(** Without placeholder the cleaner only strips artifact lines. *)
Lemma clean_content_no_placeholder (x : str) :
  has_placeholder x = false ->
  clean_content x = join [LF] (filter keep_line (splitlines x)).
Proof.
  intros H. unfold clean_content, sub_func, sub_assign.
  rewrite (sub_aux_no_match _ _ _ _ pattern_func_None H).
  rewrite (sub_aux_no_match _ _ _ _ pattern_assign_None H).
  reflexivity.
Qed.

(** ** [splitlines] after [join] *)






(** ** The content cleaner: claims C4 and C10 *)



(** A second pass can also repair again: the first pass wraps the outer
    call, the second pass then finds the inner call. *)
Lemma clean_content_repairs_twice :
  clean_content (lit "alert(alert(x${y}); ${z});")
    = lit "alert(`alert(x${y}`); ${z});" /\
  clean_content (clean_content (lit "alert(alert(x${y}); ${z});"))
    = lit "alert(`alert(`x${y}`); ${z}`);".
Proof. split; reflexivity. Qed.

Lemma clean_content_eq (x : str) :
  clean_content x = join [LF] (filter keep_line (splitlines (repaired x))).
Proof. reflexivity. Qed.



(** C10, counterexample.  The output of the cleaner can end with a line
    terminator: [a LF LF] is cleaned to [a LF]. *)
Lemma clean_content_keeps_a_final_LF :
  clean_content (lit "a" ++ [LF; LF]) = lit "a" ++ [LF] /\
  ends_withb is_linebreak (clean_content (lit "a" ++ [LF; LF])) = true.
Proof. split; reflexivity. Qed.

Lemma splitlines_aux_nonempty (s cur : str) :
  cur <> [] \/ s <> [] -> splitlines_aux cur s <> [].
Proof.
  revert cur. induction s as [|c s IH]; intros cur H.
  - destruct H as [H|H]; [|contradiction]. cbn [splitlines_aux].
    destruct cur; [contradiction|discriminate].
  - cbn [splitlines_aux]. destruct (N.eqb c CR).
    + destruct s as [|d s]; [discriminate|].
      destruct (N.eqb d LF); discriminate.
    + destruct (is_linebreak c); [discriminate|].
      apply IH. left. discriminate.
Qed.

Lemma drop_final_LF_cons (c d : char) (s : str) :
  drop_final_LF (c :: d :: s) = c :: drop_final_LF (d :: s).
Proof. reflexivity. Qed.

Lemma drop_final_LF_snoc (a : str) : drop_final_LF (a ++ [LF]) = a.
Proof.
  induction a as [|c a IH]; [reflexivity|].
  cbn [app]. destruct (a ++ [LF]) eqn:E.
  - destruct a; discriminate.
  - rewrite drop_final_LF_cons, IH. reflexivity.
Qed.

Lemma drop_final_LF_app (a t : str) :
  t <> [] -> drop_final_LF (a ++ t) = a ++ drop_final_LF t.
Proof.
  intros Ht. induction a as [|c a IH]; [reflexivity|].
  cbn [app]. destruct (a ++ t) eqn:E.
  - apply app_eq_nil in E. destruct E as [_ E]. contradiction.
  - rewrite drop_final_LF_cons, IH. reflexivity.
Qed.

Lemma drop_final_LF_id (s : str) :
  Forall (fun c => c <> LF) s -> drop_final_LF s = s.
Proof.
  induction 1 as [|c s Hc Hs IH]; [reflexivity|].
  destruct s as [|d s].
  - cbn [drop_final_LF]. destruct (N.eqb c LF) eqn:E; [|reflexivity].
    apply N.eqb_eq in E. contradiction.
  - rewrite drop_final_LF_cons, IH. reflexivity.
Qed.

Lemma no_break_no_LF (s : str) : no_break s -> Forall (fun c => c <> LF) s.
Proof.
  apply Forall_impl. intros c Hc ->. discriminate.
Qed.

Lemma no_break_rev (s : str) : no_break s -> no_break (rev s).
Proof.
  unfold no_break. rewrite !Forall_forall. intros H c Hin.
  apply H, in_rev, Hin.
Qed.

Lemma normalize_endings_nonempty (c : char) (s : str) :
  normalize_endings (c :: s) <> [].
Proof.
  cbn [normalize_endings]. destruct (N.eqb c CR); [discriminate|].
  destruct (is_linebreak c); discriminate.
Qed.

(** The lines joined by line feeds are the lines each followed by a line
    feed, without the last line feed. *)
Lemma join_terminate_lines (l : list str) :
  join [LF] l = drop_final_LF (terminate_lines l).
Proof.
  destruct l as [|x l]; [reflexivity|].
  assert (E : terminate_lines (x :: l) = join [LF] (x :: l) ++ [LF]).
  { revert x. induction l as [|y l IH]; intros x.
    - unfold terminate_lines. cbn [map concat join]. apply app_nil_r.
    - rewrite join_cons. unfold terminate_lines in *.
      cbn [map concat] in *. rewrite (IH y), <- !app_assoc. reflexivity. }
  rewrite E, drop_final_LF_snoc. reflexivity.
Qed.

(** A line that ends at a boundary, followed by the lines of the rest. *)
Lemma join_line_then_rest (cur r : str) :
  join [LF] (splitlines_aux [] r) = drop_final_LF (normalize_endings r) ->
  join [LF] (rev cur :: splitlines_aux [] r)
  = drop_final_LF (rev cur ++ LF :: normalize_endings r).
Proof.
  intros IH. destruct r as [|d r].
  - cbn [splitlines_aux normalize_endings join].
    symmetry. apply drop_final_LF_snoc.
  - assert (Hd : d :: r <> []) by discriminate.
    pose proof (splitlines_aux_nonempty (d :: r) [] (or_intror Hd)) as Hn.
    destruct (splitlines_aux [] (d :: r)) as [|y l]; [contradiction|].
    rewrite join_cons, IH.
    replace (rev cur ++ LF :: normalize_endings (d :: r))
      with ((rev cur ++ [LF]) ++ normalize_endings (d :: r))
      by (rewrite <- app_assoc; reflexivity).
    rewrite (drop_final_LF_app _ _ (normalize_endings_nonempty d r)),
      <- app_assoc.
    reflexivity.
Qed.

(** Joining the lines of a text by line feeds turns every boundary into
    one line feed and drops one final terminator. *)
Lemma join_splitlines_normalize (n : nat) :
  forall s cur, length s <= n -> no_break cur ->
  join [LF] (splitlines_aux cur s)
  = drop_final_LF (rev cur ++ normalize_endings s).
Proof.
  induction n as [|n IH]; intros s cur Hlen Hcur.
  - destruct s; [|cbn [length] in Hlen; lia].
    cbn [splitlines_aux normalize_endings]. rewrite app_nil_r.
    rewrite (drop_final_LF_id _ (no_break_no_LF _ (no_break_rev _ Hcur))).
    destruct cur as [|a cur]; [reflexivity|]. reflexivity.
  - destruct s as [|c s].
    + cbn [splitlines_aux normalize_endings]. rewrite app_nil_r.
      rewrite (drop_final_LF_id _ (no_break_no_LF _ (no_break_rev _ Hcur))).
      destruct cur as [|a cur]; reflexivity.
    + cbn [length] in Hlen.
      assert (IH0 : forall r, length r <= n ->
                join [LF] (splitlines_aux [] r)
                = drop_final_LF (normalize_endings r)).
      { intros r Hr. apply (IH r [] Hr). constructor. }
      cbn [splitlines_aux normalize_endings].
      destruct (N.eqb c CR).
      * destruct s as [|d s].
        -- apply join_line_then_rest. reflexivity.
        -- cbn [length] in Hlen. destruct (N.eqb d LF).
           ++ apply join_line_then_rest, IH0. lia.
           ++ apply join_line_then_rest, IH0. cbn [length]. lia.
      * destruct (is_linebreak c) eqn:Ec.
        -- apply join_line_then_rest, IH0. lia.
        -- rewrite (IH s (c :: cur)); [|lia|constructor; assumption].
           cbn [rev]. rewrite <- app_assoc. reflexivity.
Qed.

Lemma filter_id {A : Type} (f : A -> bool) (l : list A) :
  Forall (fun a => f a = true) l -> filter f l = l.
Proof.
  induction 1 as [|a l Ha _ IH]; [reflexivity|].
  cbn [filter]. rewrite Ha, IH. reflexivity.
Qed.

Lemma clean_content_normalized (x : str) :
  Forall (fun line => keep_line line = true) (splitlines (repaired x)) ->
  clean_content x = drop_final_LF (normalize_endings (repaired x)).
Proof.
  intros Hkeep. rewrite clean_content_eq, (filter_id _ _ Hkeep).
  apply (join_splitlines_normalize (length (repaired x)) (repaired x) []);
    [lia|constructor].
Qed.

Lemma repaired_no_placeholder (x : str) :
  has_placeholder x = false -> repaired x = x.
Proof.
  intros Hx. unfold repaired, sub_func, sub_assign.
  rewrite (sub_aux_no_match _ _ _ x pattern_func_None Hx).
  apply (sub_aux_no_match _ _ _ x pattern_assign_None Hx).
Qed.

(** C10, amended.  The output of the cleaner contains no line boundary
    other than the line feed.  It is the kept lines of the repaired text,
    each followed by one line feed, without the last line feed; when no
    line is removed it is the repaired text with every boundary (CR LF
    counting as one) turned into one line feed and one final line feed
    dropped, and the repaired text is the text itself when it holds no
    placeholder.  The cleaner alters every text that ends with a line
    boundary or contains a line boundary other than the line feed. *)
Theorem clean_content_line_endings (x : str) :
  Forall (fun c => is_linebreak c = true -> c = LF) (clean_content x) /\
  clean_content x
  = drop_final_LF
      (terminate_lines (filter keep_line (splitlines (repaired x)))) /\
  (Forall (fun line => keep_line line = true) (splitlines (repaired x)) ->
   clean_content x = drop_final_LF (normalize_endings (repaired x))) /\
  (has_placeholder x = false ->
   Forall (fun line => keep_line line = true) (splitlines x) ->
   clean_content x = drop_final_LF (normalize_endings x)) /\
  (ends_withb is_linebreak x = true \/
   existsb (fun c => is_linebreak c && negb (N.eqb c LF)) x = true ->
   clean_content x <> x).
Proof.
  split; [apply clean_content_only_LF|].
  split; [rewrite clean_content_eq; apply join_terminate_lines|].
  split; [apply clean_content_normalized|].
  split.
  { intros Hx Hkeep. rewrite <- (repaired_no_placeholder x Hx) in Hkeep.
    rewrite (clean_content_normalized x Hkeep),
      (repaired_no_placeholder x Hx). reflexivity. }
  intros [Hend|Hex] Heq.
  - apply ends_with_iff, clean_content_drops_boundary in Hend.
    rewrite Heq in Hend. lia.
  - apply existsb_exists in Hex. destruct Hex as (c & Hin & Hc).
    apply andb_true_iff in Hc. destruct Hc as [Hb Hn].
    pose proof (clean_content_only_LF x) as Hall. rewrite Heq in Hall.
    rewrite Forall_forall in Hall. specialize (Hall c Hin Hb). subst c.
    discriminate.
Qed.

Lemma clean_content_line_endings_witness :
  has_placeholder (lit "x = 1;" ++ [CR; LF] ++ lit "y = 2;" ++ [LF])
  = false /\
  Forall (fun line => keep_line line = true)
    (splitlines (lit "x = 1;" ++ [CR; LF] ++ lit "y = 2;" ++ [LF])) /\
  ends_withb is_linebreak
    (lit "x = 1;" ++ [CR; LF] ++ lit "y = 2;" ++ [LF]) = true /\
  drop_final_LF
    (normalize_endings (lit "x = 1;" ++ [CR; LF] ++ lit "y = 2;" ++ [LF]))
  = lit "x = 1;" ++ [LF] ++ lit "y = 2;" /\
  clean_content (lit "x = 1;" ++ [CR; LF] ++ lit "y = 2;" ++ [LF])
  = drop_final_LF
      (normalize_endings
         (lit "x = 1;" ++ [CR; LF] ++ lit "y = 2;" ++ [LF])) /\
  clean_content (lit "x = 1;" ++ [CR; LF] ++ lit "y = 2;" ++ [LF])
  <> lit "x = 1;" ++ [CR; LF] ++ lit "y = 2;" ++ [LF].
Proof.
  assert (Hk : Forall (fun line => keep_line line = true)
                 (splitlines
                    (lit "x = 1;" ++ [CR; LF] ++ lit "y = 2;" ++ [LF])))
    by (repeat constructor).
  destruct (clean_content_line_endings
              (lit "x = 1;" ++ [CR; LF] ++ lit "y = 2;" ++ [LF]))
    as (_ & _ & _ & Hnorm & Hne).
  split; [reflexivity|]. split; [exact Hk|]. split; [reflexivity|].
  split; [reflexivity|]. split; [exact (Hnorm eq_refl Hk)|].
  apply Hne. left. reflexivity.
Defined.

(** *** The two conditions of idempotence are needed

    A repair adds two backticks, and nothing in the cleaner removes a
    backtick: a text that a repair changes is not a fixed point. *)

Lemma count_backticks_app (a b : str) :
  count_backticks (a ++ b) = count_backticks a + count_backticks b.
Proof.
  unfold count_backticks. rewrite filter_app, length_app. reflexivity.
Qed.

Lemma count_backticks_cons (c : char) (s : str) :
  count_backticks (c :: s)
  = (if N.eqb BACKTICK c then 1 else 0) + count_backticks s.
Proof.
  unfold count_backticks. cbn [filter].
  destruct (N.eqb BACKTICK c); reflexivity.
Qed.

Lemma count_backticks_rev (s : str) :
  count_backticks (rev s) = count_backticks s.
Proof.
  induction s as [|c s IH]; [reflexivity|].
  cbn [rev]. rewrite count_backticks_app, IH, !count_backticks_cons.
  change (count_backticks []) with 0. lia.
Qed.

Section SubBackticks.
Variable pat : str -> option (str * str * str).
Variable repl : str -> str -> str.
Variable len : str -> str -> nat.

(** A match covers a text [M] followed by a semicolon; its replacement
    has two backticks more. *)
Hypothesis Hpat : forall s g1 g2 r,
  pat s = Some (g1, g2, r) ->
  exists M : str, s = M ++ [59%N] ++ r /\ len g1 g2 = S (length M) /\
            count_backticks (repl g1 g2) = count_backticks M + 2.

Lemma match_tail_backticks (c : char) (s' M r : str) :
  c :: s' = M ++ [59%N] ++ r ->
  exists M' : str, s' = M' ++ r /\ length M' = length M /\
             count_backticks (c :: M') = count_backticks M.
Proof.
  destruct M as [|m M]; cbn [app]; intros H; inversion H; subst.
  - exists []. repeat split.
  - exists (M ++ [59%N]). rewrite <- app_assoc. repeat split.
    + rewrite length_app. cbn [length]. lia.
    + rewrite !count_backticks_cons, count_backticks_app.
      change (count_backticks [59%N]) with 0. lia.
Qed.

Lemma sub_aux_backticks (s : str) :
  forall skip, skip <= length s ->
  count_backticks (skipn skip s)
  <= count_backticks (sub_aux pat repl len skip s) /\
  (count_backticks (sub_aux pat repl len skip s)
   = count_backticks (skipn skip s) ->
   sub_aux pat repl len skip s = skipn skip s).
Proof.
  induction s as [|c s IH]; intros skip Hs.
  - destruct skip; split; auto.
  - destruct skip as [|k]; cbn [sub_aux skipn length] in *;
      [|apply IH; lia].
    destruct (pat (c :: s)) as [[[g1 g2] r]|] eqn:E.
    + destruct (Hpat _ _ _ _ E) as (M & HM & Hlen & Hc).
      destruct (match_tail_backticks _ _ _ _ HM) as (M' & -> & HlM & HcM).
      assert (Hk : len g1 g2 - 1 = length M') by lia.
      assert (Hle : length M' <= length (M' ++ r))
        by (rewrite length_app; lia).
      destruct (IH (length M') Hle) as [Hge _].
      rewrite skipn_app, skipn_all, Nat.sub_diag in Hge.
      cbn [skipn app] in Hge.
      rewrite Hk, count_backticks_app, Hc.
      rewrite (count_backticks_cons c (M' ++ r)), count_backticks_app.
      rewrite count_backticks_cons in HcM.
      split; [lia|intros Heq; lia].
    + destruct (IH 0 (Nat.le_0_l _)) as [Hge Heq]. cbn [skipn] in *.
      rewrite !count_backticks_cons. split; [lia|].
      intros H. f_equal. apply Heq. lia.
Qed.
End SubBackticks.

Lemma pattern_func_backticks (s g1 g2 r : str) :
  pattern_func s = Some (g1, g2, r) ->
  exists M : str, s = M ++ [59%N] ++ r /\ len_func g1 g2 = S (length M) /\
            count_backticks (repl_func g1 g2) = count_backticks M + 2.
Proof.
  intros H. apply pattern_func_Some in H.
  exists (g1 ++ lit "(" ++ g2 ++ lit ")"). repeat split.
  - rewrite H, <- !app_assoc. reflexivity.
  - unfold len_func. rewrite !length_app. simpl. lia.
  - unfold repl_func. rewrite !count_backticks_app.
    change (count_backticks (lit "(`")) with 1.
    change (count_backticks (lit "`);")) with 1.
    change (count_backticks (lit "(")) with 0.
    change (count_backticks (lit ")")) with 0. lia.
Qed.

Lemma pattern_assign_backticks (s g1 g2 r : str) :
  pattern_assign s = Some (g1, g2, r) ->
  exists M : str, s = M ++ [59%N] ++ r /\ len_assign g1 g2 = S (length M) /\
            count_backticks (repl_assign g1 g2) = count_backticks M + 2.
Proof.
  intros H. apply pattern_assign_Some in H.
  exists (g1 ++ g2). repeat split.
  - rewrite H, <- !app_assoc. reflexivity.
  - unfold len_assign. rewrite !length_app. lia.
  - unfold repl_assign. rewrite !count_backticks_app.
    change (count_backticks (lit "`")) with 1.
    change (count_backticks (lit "`;")) with 1. lia.
Qed.

(** The repairs never remove a backtick, and they add one whenever they
    change the text. *)
Lemma repaired_backticks (x : str) :
  count_backticks x <= count_backticks (repaired x) /\
  (count_backticks (repaired x) = count_backticks x -> repaired x = x).
Proof.
  unfold repaired, sub_func, sub_assign.
  destruct (sub_aux_backticks pattern_func repl_func len_func
              pattern_func_backticks x 0 (Nat.le_0_l _)) as [H1 E1].
  destruct (sub_aux_backticks pattern_assign repl_assign len_assign
              pattern_assign_backticks
              (sub_aux pattern_func repl_func len_func 0 x) 0
              (Nat.le_0_l _)) as [H2 E2].
  cbn [skipn] in *. split; [lia|]. intros H.
  assert (Ea : sub_aux pattern_func repl_func len_func 0 x = x)
    by (apply E1; lia).
  rewrite Ea in *. apply E2. lia.
Qed.

Lemma count_backticks_lstrip (s : str) :
  count_backticks (lstrip_space s) = count_backticks s.
Proof.
  induction s as [|c s IH]; [reflexivity|].
  cbn [lstrip_space]. destruct (is_space c) eqn:E; [|reflexivity].
  rewrite IH, count_backticks_cons.
  destruct (N.eqb BACKTICK c) eqn:Eb; [|reflexivity].
  apply N.eqb_eq in Eb. subst c. discriminate.
Qed.

Lemma count_backticks_strip (s : str) :
  count_backticks (strip s) = count_backticks s.
Proof.
  unfold strip.
  rewrite count_backticks_rev, count_backticks_lstrip,
    count_backticks_rev, count_backticks_lstrip.
  reflexivity.
Qed.

(** A line that the cleaner removes holds no backtick. *)
Lemma removed_line_backticks (line : str) :
  keep_line line = false -> count_backticks line = 0.
Proof.
  unfold keep_line. intros H. apply negb_false_iff, existsb_exists in H.
  destruct H as (m & Hin & Hm). apply str_eqb_eq in Hm.
  rewrite <- count_backticks_strip, Hm.
  unfold lines_to_remove in Hin.
  repeat (destruct Hin as [<-|Hin]; [reflexivity|]). contradiction.
Qed.

Lemma terminate_lines_cons (x : str) (l : list str) :
  terminate_lines (x :: l) = x ++ [LF] ++ terminate_lines l.
Proof.
  unfold terminate_lines. cbn [map concat]. rewrite <- app_assoc.
  reflexivity.
Qed.

Lemma terminate_filter_backticks (l : list str) :
  count_backticks (terminate_lines (filter keep_line l))
  = count_backticks (terminate_lines l).
Proof.
  induction l as [|x l IH]; [reflexivity|].
  cbn [filter]. destruct (keep_line x) eqn:E.
  - rewrite !terminate_lines_cons, !count_backticks_app, IH. reflexivity.
  - rewrite terminate_lines_cons, !count_backticks_app, IH,
      (removed_line_backticks x E).
    change (count_backticks [LF]) with 0. reflexivity.
Qed.

Lemma drop_final_LF_backticks (s : str) :
  count_backticks (drop_final_LF s) = count_backticks s.
Proof.
  induction s as [|c s IH]; [reflexivity|].
  destruct s as [|d s].
  - cbn [drop_final_LF]. destruct (N.eqb c LF) eqn:E; [|reflexivity].
    apply N.eqb_eq in E. subst c. reflexivity.
  - rewrite drop_final_LF_cons, !(count_backticks_cons c), IH.
    reflexivity.
Qed.

Lemma normalize_endings_backticks (n : nat) :
  forall s, length s <= n ->
  count_backticks (normalize_endings s) = count_backticks s.
Proof.
  induction n as [|n IH]; intros s Hlen.
  - destruct s; [reflexivity|cbn [length] in Hlen; lia].
  - destruct s as [|c s]; [reflexivity|]. cbn [length] in Hlen.
    cbn [normalize_endings]. destruct (N.eqb c CR) eqn:Ec.
    + apply N.eqb_eq in Ec. subst c.
      destruct s as [|d s]; [reflexivity|]. cbn [length] in Hlen.
      destruct (N.eqb d LF) eqn:Ed.
      * apply N.eqb_eq in Ed. subst d.
        rewrite !count_backticks_cons, IH by lia. reflexivity.
      * rewrite (count_backticks_cons LF), (count_backticks_cons CR),
          IH by (cbn [length]; lia). reflexivity.
    + destruct (is_linebreak c) eqn:El.
      * rewrite (count_backticks_cons LF), (count_backticks_cons c),
          IH by lia.
        destruct (N.eqb BACKTICK c) eqn:Eb; [|reflexivity].
        apply N.eqb_eq in Eb. subst c. discriminate.
      * rewrite !(count_backticks_cons c), IH by lia. reflexivity.
Qed.

(** The cleaned text has the backticks of the repaired text. *)
Lemma clean_content_backticks (x : str) :
  count_backticks (clean_content x) = count_backticks (repaired x).
Proof.
  rewrite clean_content_eq, join_terminate_lines, drop_final_LF_backticks,
    terminate_filter_backticks, <- drop_final_LF_backticks,
    <- join_terminate_lines.
  unfold splitlines.
  rewrite (join_splitlines_normalize (length (repaired x)) (repaired x) []
             (Nat.le_refl _) (Forall_nil _)).
  cbn [rev app].
  rewrite drop_final_LF_backticks.
  apply (normalize_endings_backticks _ _ (Nat.le_refl _)).
Qed.

(** A text that the cleaner leaves as it is is left as it is by the two
    repairs and does not end with a line feed: the two conditions under
    which the cleaner is idempotent on [x] hold whenever
    [clean_content (clean_content x) = clean_content x]. *)
Lemma clean_content_fixed_only_if (y : str) :
  clean_content y = y ->
  sub_assign (sub_func y) = y /\ ends_withb (N.eqb LF) y = false.
Proof.
  intros E. split.
  - apply (proj2 (repaired_backticks y)).
    rewrite <- (clean_content_backticks y), E. reflexivity.
  - destruct (ends_withb (N.eqb LF) y) eqn:Hend; [exfalso|reflexivity].
    assert (Hw : ends_with is_linebreak y).
    { apply ends_with_iff in Hend. destruct Hend as (s0 & c & -> & Hc).
      exists s0, c. split; [reflexivity|].
      apply N.eqb_eq in Hc. subst c. reflexivity. }
    pose proof (clean_content_drops_boundary y Hw) as Hlt.
    rewrite E in Hlt. lia.
Qed.

(** ** The binary detector: claim C8 *)

(** C8.  [is_binary] answers [true] exactly when the file cannot be
    opened or a NUL byte occurs among its first 1024 bytes; the answer
    depends on these 1024 bytes only, and it is [false] for an empty
    file.  The function is total: the failure of [open] is the case
    [None], which it catches. *)
Theorem is_binary_spec (cwd : str) (fs : node) (filepath : str) :
  (is_binary cwd fs filepath 1024 = true <->
   read_bytes cwd fs filepath = None \/
   exists data, read_bytes cwd fs filepath = Some data /\
                In 0%N (firstn 1024 data)) /\
  (forall data data',
     read_bytes cwd fs filepath = Some data ->
     firstn 1024 data = firstn 1024 data' ->
     is_binary cwd fs filepath 1024 = is_binary_chunk (Some data') 1024) /\
  (read_bytes cwd fs filepath = Some [] ->
   is_binary cwd fs filepath 1024 = false).
Proof.
  unfold is_binary, is_binary_chunk.
  destruct (read_bytes cwd fs filepath) as [data|]; repeat split.
  - intros H. right. exists data. split; [reflexivity|].
    destruct (existsb _ _) eqn:E; [|discriminate].
    apply existsb_exists in E. destruct E as (b & Hb & E).
    apply N.eqb_eq in E. subst. exact Hb.
  - intros [H|(d & H & Hin)]; [discriminate|]. inversion H; subst.
    replace (existsb (N.eqb 0) (firstn 1024 d)) with true; [reflexivity|].
    symmetry. apply existsb_exists. exists 0%N. split; [exact Hin|].
    reflexivity.
  - intros d d' H E. inversion H; subst. rewrite E. reflexivity.
  - intros H. inversion H; subst. reflexivity.
  - intros _. left; reflexivity.
  - discriminate.
  - discriminate.
Qed.

(** ** The patch applier: fatal input, claim C5 *)

Lemma read_text_exists (cwd : str) (fs : node) (p content : str) (b : bool) :
  read_text cwd b fs p = Some content -> os_path_exists cwd fs p = true.
Proof.
  unfold read_text, read_bytes, os_path_exists.
  destruct (lookup _ fs) as [[d|es]|]; (discriminate || reflexivity).
Qed.

(** C5.  When the update file has no opening marker, no closing marker,
    or the text between the markers is rejected by the parser, the run
    leaves the file system as it was and prints, after the two lines of
    its banner, one diagnostic. *)
Theorem update_fatal_input (ET_fromstring : str -> option Element)
    (cwd : str) (fs : node) (root_dir input_txt_path content : str) :
  read_text cwd true fs input_txt_path = Some content ->
  (find start_tag content = None \/ rfind end_tag content = None \/
   exists i j, find start_tag content = Some i /\
               rfind end_tag content = Some j /\
               ET_fromstring (slice content i (j + length end_tag)) = None) ->
  exists d,
    update_project_from_xml ET_fromstring cwd fs root_dir input_txt_path
    = (fs, [UpdateMode; ApplyingChanges input_txt_path; d]) /\
    (d = NoProjectBlock input_txt_path \/ d = MalformedXml input_txt_path).
Proof.
  intros Hread Hbad. unfold update_project_from_xml.
  rewrite (read_text_exists _ _ _ _ _ Hread), Hread. simpl negb. cbv iota.
  destruct Hbad as [H|[H|(i & j & Hi & Hj & Hp)]].
  - rewrite H. exists (NoProjectBlock input_txt_path). auto.
  - rewrite H. exists (NoProjectBlock input_txt_path).
    destruct (find start_tag content); auto.
  - rewrite Hi, Hj, Hp. exists (MalformedXml input_txt_path). auto.
Qed.

Lemma update_fatal_input_witness :
  read_text (lit "/") true (project_fs (lit "no markers here") [])
    UPDATE_PATH = Some (lit "no markers here") /\
  (find start_tag (lit "no markers here") = None \/
   rfind end_tag (lit "no markers here") = None \/
   exists i j, find start_tag (lit "no markers here") = Some i /\
               rfind end_tag (lit "no markers here") = Some j /\
               container_fromstring
                 (slice (lit "no markers here") i (j + length end_tag))
               = None) /\
  exists d,
    update_project_from_xml container_fromstring (lit "/")
      (project_fs (lit "no markers here") []) ROOT UPDATE_PATH
    = (project_fs (lit "no markers here") [],
       [UpdateMode; ApplyingChanges UPDATE_PATH; d]) /\
    (d = NoProjectBlock UPDATE_PATH \/ d = MalformedXml UPDATE_PATH).
Proof.
  split; [reflexivity|]. split; [left; reflexivity|].
  apply (update_fatal_input container_fromstring (lit "/")
           (project_fs (lit "no markers here") []) ROOT UPDATE_PATH
           (lit "no markers here")).
  - reflexivity.
  - left; reflexivity.
Defined.

(** The second fatal case on a concrete file: markers around text that is
    no markup. *)
Lemma update_malformed_example :
  update_project_from_xml container_fromstring (lit "/")
    (project_fs (lit "<project><file></project>") []) ROOT UPDATE_PATH
  = (project_fs (lit "<project><file></project>") [],
     [UpdateMode; ApplyingChanges UPDATE_PATH; MalformedXml UPDATE_PATH]).
Proof. reflexivity. Qed.

(** ** The containment check: claim C1 *)


(** C1, the code at a failing input.  With the root [/home/project], the
    entry path [../project_evil/x] resolves to [/home/project_evil/x],
    which is not below the root but starts with the root's text: the
    entry is not rejected, and the file is written outside the project. *)
Lemma containment_check_accepts_sibling :
  let fs := project_fs sibling_doc [] in
  let run := update_project_from_xml container_fromstring (lit "/") fs
               ROOT UPDATE_PATH in
  target (lit "/") ROOT (lit "../project_evil/x")
    = lit "/home/project_evil/x" /\
  strictly_within ROOT (lit "/home/project_evil/x") = false /\
  startswith (lit "/home/project_evil/x") ROOT = true /\
  stat fs [lit "home"; lit "project_evil"] = None /\
  stat (fst run) [lit "home"; lit "project_evil"; lit "x"]
    = Some (KFile (utf8 (lit "owned"))) /\
  snd run = [UpdateMode; ApplyingChanges UPDATE_PATH;
             CreatedDirectory (lit "../project_evil");
             UpdatedFile (lit "../project_evil/x"); UpdateComplete 1].
Proof. vm_compute. repeat split. Qed.

(** ** Entries are processed one by one: claim C6 *)


Lemma apply_file_element_write (cwd root_dir project_root_abs : str)
    (st : loop_state) (e : Element) (p : str) :
  get e (lit "path") = Some p -> p <> [] -> is_delete e = false ->
  startswith (target cwd root_dir p) project_root_abs = true ->
  apply_file_element cwd root_dir project_root_abs st e
  = write_entry cwd root_dir (target cwd root_dir p) (sanitized p)
      (content_of e) st.
Proof.
  intros Hp Hne Hd Hs. destruct st as [[fs log] n].
  unfold apply_file_element. rewrite Hp.
  destruct p as [|c p]; [congruence|].
  fold (sanitized (c :: p)). fold (target cwd root_dir (c :: p)).
  rewrite Hs. fold (is_delete e). rewrite Hd. reflexivity.
Qed.




(** ** The snapshot walk: claims C9 and C2 *)

Section Walk.
Variable cwd : str.
Variable spec : PathSpec.
Variable root_dir : str.

Lemma walk_Dir (dirpath : str) (es : list (str * node)) :
  walk cwd spec root_dir dirpath (Dir es)
  = app2 ([], ignored_dir_log cwd spec root_dir dirpath (dirnames_of es))
      (app2 (visit_files cwd spec root_dir dirpath es) (descend cwd spec root_dir dirpath es)).
Proof. reflexivity. Qed.




End Walk.


(** The pruned directory on a concrete tree: only the file beside it is
    reported. *)
Lemma walk_build_example :
  walk (lit "/") (anchored_spec (lit "build")) ROOT ROOT
    (build_tree [(lit "out.txt", File (utf8 (lit "x")))])
  = ([file_block (lit "a.txt") (lit "hi")],
     [IgnoringDirectory (lit "build"); AddingFile (lit "a.txt")]).
Proof. reflexivity. Qed.

(** The file test of the walk: a file is left out by rule exactly when
    the matcher accepts the joined path [dirpath/filename], not the path
    relative to the root. *)
Lemma visit_file_rule (cwd : str) (spec : PathSpec)
    (root_dir dirpath filename : str) (data : bytes) :
  match_file spec (path_join dirpath filename) = true <->
  visit_file cwd spec root_dir dirpath filename data
  = ([], [IgnoringFileRule
            (relpath cwd (path_join dirpath filename) root_dir)]).
Proof.
  unfold visit_file. split.
  - intros ->. reflexivity.
  - destruct (match_file spec (path_join dirpath filename)); [reflexivity|].
    destruct (is_binary_chunk _ _); [discriminate|].
    destruct (option_map _ _); discriminate.
Qed.

(** C2, the code at a failing input.  With the rule [/secret.txt], the
    file [secret.txt] at the root of the project [/home/project] matches
    by its relative path; the walk tests the path
    [/home/project/secret.txt], which does not match, and adds the file to
    the snapshot.  A directory in the same place is tested by its relative
    path and pruned. *)
Lemma file_test_uses_full_path :
  let spec := anchored_spec (lit "secret.txt") in
  replace_char BACKSLASH SLASH
    (relpath (lit "/") (path_join ROOT (lit "secret.txt")) ROOT)
    = lit "secret.txt" /\
  match_file spec (lit "secret.txt") = true /\
  match_file spec (path_join ROOT (lit "secret.txt")) = false /\
  walk (lit "/") spec ROOT ROOT secret_tree
    = ([file_block (lit "secret.txt") (lit "s3cret")],
       [AddingFile (lit "secret.txt")]) /\
  walk (lit "/") spec ROOT ROOT (Dir [(lit "secret.txt", Dir [])])
    = ([], [IgnoringDirectory (lit "secret.txt")]).
Proof. vm_compute. repeat split. Qed.

(** ** Paths: [split], [join] and the normal absolute paths *)

Lemma good_name_spec (c : str) :
  good_name c = true ->
  c <> [] /\ no_slash c /\ c <> DOT /\ c <> DOTDOT.
Proof.
  unfold good_name. rewrite !andb_true_iff, !negb_true_iff.
  intros [[[H1 H2] H3] H4]. repeat split.
  - destruct c; [discriminate|discriminate].
  - apply Forall_forall. intros x Hx Hs. subst x.
    assert (existsb (N.eqb SLASH) c = true); [|congruence].
    apply existsb_exists. exists SLASH. split; [exact Hx|reflexivity].
  - intros ->. discriminate.
  - intros ->. discriminate.
Qed.

Lemma split_cons_sep (s : str) : split SLASH (SLASH :: s) = [] :: split SLASH s.
Proof. reflexivity. Qed.

Lemma split_nonempty (s : str) : split SLASH s <> [].
Proof.
  induction s as [|c s IH]; simpl; [discriminate|].
  destruct (N.eqb c SLASH); [discriminate|].
  destruct (split SLASH s); discriminate.
Qed.

Lemma split_app (x s : str) :
  no_slash x ->
  split SLASH (x ++ SLASH :: s) = x :: split SLASH s.
Proof.
  induction 1 as [|c x Hc Hx IH]; [reflexivity|].
  simpl app. cbn [split]. rewrite IH.
  destruct (N.eqb_spec c SLASH); [contradiction|reflexivity].
Qed.

Lemma split_no_slash (x : str) : no_slash x -> split SLASH x = [x].
Proof.
  induction 1 as [|c x Hc Hx IH]; [reflexivity|].
  cbn [split]. rewrite IH.
  destruct (N.eqb_spec c SLASH); [contradiction|reflexivity].
Qed.

Lemma split_slashed (cs : list str) :
  Forall no_slash cs -> split SLASH (slashed cs) = [] :: cs.
Proof.
  induction 1 as [|c cs Hc Hcs IH]; [reflexivity|].
  cbn [slashed flat_map]. simpl app. rewrite split_cons_sep. f_equal.
  destruct cs as [|d cs].
  - simpl. rewrite app_nil_r. apply split_no_slash, Hc.
  - cbn [slashed flat_map] in *. simpl app in *.
    rewrite split_app by exact Hc. f_equal.
    rewrite split_cons_sep in IH. inversion IH. reflexivity.
Qed.

Lemma Forall_good (cs : list str) :
  forallb good_name cs = true ->
  Forall no_slash cs /\ Forall (fun c => nonempty c = true) cs.
Proof.
  rewrite forallb_forall. intros H. split; apply Forall_forall; intros c Hc.
  - apply (good_name_spec c (H c Hc)).
  - destruct c; [|reflexivity].
    destruct (good_name_spec [] (H _ Hc)) as [Hn _]. congruence.
Qed.

Lemma filter_all {A : Type} (f : A -> bool) (l : list A) :
  Forall (fun x => f x = true) l -> filter f l = l.
Proof.
  induction 1 as [|x l Hx Hl IH]; [reflexivity|].
  simpl. rewrite Hx, IH. reflexivity.
Qed.

Lemma components_slashed (cs : list str) :
  forallb good_name cs = true -> components (slashed cs) = cs.
Proof.
  intros H. destruct (Forall_good _ H) as [Hs Hn].
  unfold components. rewrite (split_slashed _ Hs). cbn [filter nonempty].
  apply filter_all, Hn.
Qed.

Lemma components_abs_path (cs : list str) :
  forallb good_name cs = true -> components (abs_path cs) = cs.
Proof.
  destruct cs as [|c cs]; [reflexivity|]. apply components_slashed.
Qed.

Lemma isabs_abs_path (cs : list str) : isabs (abs_path cs) = true.
Proof. destruct cs; reflexivity. Qed.

Lemma resolve_abs_path (cwd : str) (cs : list str) :
  forallb good_name cs = true -> resolve cwd (abs_path cs) = cs.
Proof.
  intros H. unfold resolve. rewrite isabs_abs_path.
  apply components_abs_path, H.
Qed.

Lemma slashed_app (a b : list str) : slashed (a ++ b) = slashed a ++ slashed b.
Proof. unfold slashed. apply flat_map_app. Qed.

Lemma slashed_join (c : str) (cs : list str) :
  slashed (c :: cs) = SLASH :: join [SLASH] (c :: cs).
Proof.
  revert c; induction cs as [|d cs IH]; intros c.
  - simpl. rewrite app_nil_r. reflexivity.
  - rewrite join_cons. cbn [slashed flat_map] in *. simpl app in *.
    rewrite IH. reflexivity.
Qed.

(** *** [normpath] *)

Lemma split_parts_no_slash (s : str) : Forall no_slash (split SLASH s).
Proof.
  induction s as [|c s IH]; simpl.
  - repeat constructor.
  - destruct (N.eqb_spec c SLASH) as [->|Hc].
    + constructor; [constructor|exact IH].
    + destruct (split SLASH s) as [|x xs]; [repeat constructor; exact Hc|].
      inversion IH; subst. constructor; [|assumption].
      constructor; assumption.
Qed.

Lemma good_name_intro (c : str) :
  no_slash c -> str_eqb c [] = false -> str_eqb c DOT = false ->
  str_eqb c DOTDOT = false -> good_name c = true.
Proof.
  intros Hs He Hd Hdd. unfold good_name. rewrite Hd, Hdd.
  destruct c as [|x c]; [discriminate|]. cbn [nonempty andb negb].
  rewrite !andb_true_r. apply negb_true_iff.
  destruct (existsb (N.eqb SLASH) (x :: c)) eqn:E; [|reflexivity].
  apply existsb_exists in E. destruct E as (y & Hy & E).
  apply N.eqb_eq in E. subst y. unfold no_slash in Hs.
  rewrite Forall_forall in Hs. exfalso. exact (Hs _ Hy eq_refl).
Qed.

(** For an absolute path every component that stays on the stack is a
    good name. *)
Lemma normpath_comps_good (l st : list str) :
  Forall no_slash l -> forallb good_name st = true ->
  forallb good_name (normpath_comps 1 st l) = true.
Proof.
  intros Hl; revert st; induction Hl as [|c l Hc Hl IH]; intros st Hst.
  - exact Hst.
  - cbn [normpath_comps].
    destruct (str_eqb c []) eqn:E1; [apply IH, Hst|].
    destruct (str_eqb c DOT) eqn:E2; [apply IH, Hst|].
    cbn [orb]. destruct (str_eqb c DOTDOT) eqn:E3; cbn [negb orb andb].
    + replace (match st with top :: _ => str_eqb top DOTDOT | [] => false end)
        with false.
      * apply IH. destruct st as [|t st]; [reflexivity|].
        cbn [tl]. cbn [forallb] in Hst. apply andb_true_iff in Hst.
        apply Hst.
      * destruct st as [|t st]; [reflexivity|].
        cbn [forallb] in Hst. apply andb_true_iff in Hst.
        destruct Hst as [Ht _]. destruct (good_name_spec _ Ht) as (_&_&_&H).
        symmetry. destruct (str_eqb t DOTDOT) eqn:E; [|reflexivity].
        apply str_eqb_eq in E. contradiction.
    + apply IH. cbn [forallb]. rewrite Hst, andb_true_r.
      apply good_name_intro; assumption.
Qed.

Lemma normpath_comps_id (l st : list str) :
  forallb good_name l = true -> normpath_comps 1 st l = rev l ++ st.
Proof.
  revert st; induction l as [|c l IH]; intros st H; [reflexivity|].
  cbn [forallb] in H. apply andb_true_iff in H. destruct H as [Hc Hl].
  destruct (good_name_spec _ Hc) as (H1 & _ & H3 & H4).
  cbn [normpath_comps].
  replace (str_eqb c []) with false
    by (symmetry; destruct (str_eqb c []) eqn:E; [|reflexivity];
        apply str_eqb_eq in E; contradiction).
  replace (str_eqb c DOT) with false
    by (symmetry; destruct (str_eqb c DOT) eqn:E; [|reflexivity];
        apply str_eqb_eq in E; contradiction).
  replace (str_eqb c DOTDOT) with false
    by (symmetry; destruct (str_eqb c DOTDOT) eqn:E; [|reflexivity];
        apply str_eqb_eq in E; contradiction).
  cbn [orb negb]. rewrite (IH _ Hl). cbn [rev]. rewrite <- app_assoc.
  reflexivity.
Qed.

Lemma abs_path_join (cs : list str) : abs_path cs = SLASH :: join [SLASH] cs.
Proof. destruct cs; [reflexivity|apply slashed_join]. Qed.

Lemma normpath_abs_eq (s : str) :
  startswith s [SLASH] = false ->
  normpath (SLASH :: s)
  = abs_path (rev (normpath_comps 1 [] (split SLASH s))).
Proof.
  intros Hs. unfold normpath.
  change (startswith (SLASH :: s) [SLASH]) with true. cbv iota.
  change (startswith (SLASH :: s) [SLASH; SLASH])
    with (startswith s [SLASH]).
  rewrite Hs. cbn [andb]. rewrite split_cons_sep.
  cbn [normpath_comps str_eqb orb repeat].
  rewrite abs_path_join. reflexivity.
Qed.

(** [normpath] of an absolute path with one leading separator is a
    normal absolute path. *)
Lemma normpath_abs (s : str) :
  startswith s [SLASH] = false ->
  exists cs, forallb good_name cs = true /\
             normpath (SLASH :: s) = abs_path cs.
Proof.
  intros Hs.
  exists (rev (normpath_comps 1 [] (split SLASH s))). split.
  - rewrite forallb_forall. intros x Hx. apply in_rev in Hx.
    pose proof (normpath_comps_good (split SLASH s) []
                  (split_parts_no_slash s) eq_refl) as H.
    rewrite forallb_forall in H. apply H, Hx.
  - apply normpath_abs_eq, Hs.
Qed.

Lemma slashed_not_double (cs : list str) :
  forallb good_name cs = true ->
  forall s, abs_path cs = SLASH :: s -> startswith s [SLASH] = false.
Proof.
  intros H s E. destruct cs as [|c cs].
  - inversion E. reflexivity.
  - cbn [abs_path slashed flat_map] in E. simpl app in E. inversion E.
    cbn [forallb] in H. apply andb_true_iff in H. destruct H as [Hc _].
    destruct (good_name_spec _ Hc) as (Hn & Hns & _).
    destruct c as [|x c]; [congruence|]. inversion Hns; subst.
    unfold startswith. cbn [app strip_prefix].
    destruct (N.eqb_spec SLASH x) as [e|]; [congruence|reflexivity].
Qed.

Lemma split_join (c : str) (cs : list str) :
  Forall no_slash (c :: cs) -> split SLASH (join [SLASH] (c :: cs)) = c :: cs.
Proof.
  intros H. pose proof (split_slashed _ H) as E.
  rewrite slashed_join, split_cons_sep in E.
  exact (f_equal (@tl str) E).
Qed.

(** [normpath] leaves a normal absolute path as it is. *)
Lemma normpath_abs_path (cs : list str) :
  forallb good_name cs = true -> normpath (abs_path cs) = abs_path cs.
Proof.
  intros H. destruct (Forall_good _ H) as [Hs _].
  destruct cs as [|c cs]; [reflexivity|].
  pose proof (slashed_not_double _ H _ (abs_path_join _)) as Hd.
  rewrite (abs_path_join (c :: cs)) at 1.
  rewrite (normpath_abs_eq _ Hd), (split_join _ _ Hs).
  rewrite (normpath_comps_id _ _ H), app_nil_r, rev_involutive.
  reflexivity.
Qed.

Lemma abspath_abs_path (cwd : str) (cs : list str) :
  forallb good_name cs = true -> abspath cwd (abs_path cs) = abs_path cs.
Proof.
  intros H. unfold abspath. rewrite isabs_abs_path.
  apply normpath_abs_path, H.
Qed.

(** *** [join], [dirname], [relpath] on normal absolute paths *)

Lemma forallb_app_good (a b : list str) :
  forallb good_name (a ++ b) = true <->
  forallb good_name a = true /\ forallb good_name b = true.
Proof. rewrite forallb_app, andb_true_iff. reflexivity. Qed.

Lemma good_name_last (c : str) :
  good_name c = true -> exists c0 z, c = c0 ++ [z] /\ z <> SLASH.
Proof.
  intros H. destruct (good_name_spec _ H) as (Hn & Hs & _).
  destruct (exists_last Hn) as (c0 & z & ->). exists c0, z.
  split; [reflexivity|]. unfold no_slash in Hs.
  apply Forall_app in Hs. destruct Hs as [_ Hz]. inversion Hz; assumption.
Qed.

Lemma good_name_first (c : str) :
  good_name c = true -> startswith c [SLASH] = false.
Proof.
  intros H. destruct (good_name_spec _ H) as (Hn & Hs & _).
  destruct c as [|x c]; [reflexivity|]. inversion Hs; subst.
  unfold startswith. cbn [strip_prefix].
  destruct (N.eqb_spec SLASH x) as [e|]; [congruence|reflexivity].
Qed.

Lemma startswith_head (x : char) (a b : str) :
  startswith (x :: a) [SLASH] = false -> startswith (x :: b) [SLASH] = false.
Proof.
  unfold startswith. cbn [strip_prefix].
  destruct (N.eqb SLASH x); [discriminate|reflexivity].
Qed.

Lemma slashed_last (c : str) (cs : list str) :
  forallb good_name (c :: cs) = true ->
  exists s z, slashed (c :: cs) = s ++ [z] /\ z <> SLASH.
Proof.
  intros H. destruct (exists_last (l := c :: cs)) as (l0 & y & E);
    [discriminate|].
  rewrite E in *. apply forallb_app_good in H. destruct H as [_ Hy].
  cbn [forallb] in Hy. rewrite andb_true_r in Hy.
  destruct (good_name_last _ Hy) as (y0 & z & -> & Hz).
  exists (slashed l0 ++ SLASH :: y0), z. split; [|exact Hz].
  rewrite slashed_app. cbn [slashed flat_map]. rewrite app_nil_r.
  rewrite <- app_assoc. reflexivity.
Qed.

Lemma path_join_abs (rs : list str) (x : str) :
  forallb good_name rs = true -> startswith x [SLASH] = false ->
  path_join (abs_path rs) x
  = match rs with [] => SLASH :: x | _ => slashed rs ++ SLASH :: x end.
Proof.
  intros Hrs Hx. unfold path_join. rewrite Hx.
  destruct rs as [|c cs]; [reflexivity|].
  cbn [abs_path]. destruct (slashed_last _ _ Hrs) as (s & z & E & Hz).
  rewrite E. unfold endswith_char. rewrite ends_withb_snoc.
  destruct (s ++ [z]) eqn:E'; [destruct s; discriminate|]. rewrite <- E'.
  destruct (N.eqb_spec SLASH z) as [e|]; [congruence|reflexivity].
Qed.

Lemma join_first (c : str) (cs : list str) :
  good_name c = true -> startswith (join [SLASH] (c :: cs)) [SLASH] = false.
Proof.
  intros H. pose proof (good_name_first _ H) as Hf.
  destruct (good_name_spec _ H) as (Hn & _).
  destruct c as [|x c]; [congruence|].
  destruct cs as [|d cs]; [exact Hf|].
  rewrite join_cons. unfold startswith in *. simpl app.
  cbn [strip_prefix] in *.
  destruct (N.eqb SLASH x); [discriminate|reflexivity].
Qed.

(** Joining a relative path of good names to a normal absolute path. *)
Lemma path_join_abs_rel (rs comps : list str) :
  forallb good_name rs = true -> forallb good_name comps = true ->
  comps <> [] ->
  path_join (abs_path rs) (join [SLASH] comps) = abs_path (rs ++ comps).
Proof.
  intros Hrs Hc Hne. destruct comps as [|c cs]; [congruence|].
  assert (Hg : good_name c = true)
    by (cbn [forallb] in Hc; apply andb_true_iff in Hc; apply Hc).
  rewrite (path_join_abs _ _ Hrs (join_first _ cs Hg)).
  destruct rs as [|r rs].
  - rewrite <- slashed_join. reflexivity.
  - rewrite <- slashed_join, <- slashed_app. reflexivity.
Qed.

Lemma path_join_abs_name (rs : list str) (d : str) :
  forallb good_name rs = true -> good_name d = true ->
  path_join (abs_path rs) d = abs_path (rs ++ [d]).
Proof.
  intros Hrs Hd. apply (path_join_abs_rel rs [d] Hrs); [|discriminate].
  cbn [forallb]. rewrite Hd. reflexivity.
Qed.

Lemma walk_path_abs (rs ds : list str) :
  forallb good_name rs = true -> forallb good_name ds = true ->
  walk_path (abs_path rs) ds = abs_path (rs ++ ds).
Proof.
  revert rs; induction ds as [|d ds IH]; intros rs Hrs Hds.
  - rewrite app_nil_r. reflexivity.
  - cbn [forallb] in Hds. apply andb_true_iff in Hds.
    destruct Hds as [Hd Hds]. cbn [walk_path fold_left].
    rewrite (path_join_abs_name _ _ Hrs Hd).
    change (fold_left path_join ds (abs_path (rs ++ [d])))
      with (walk_path (abs_path (rs ++ [d])) ds).
    rewrite IH; [rewrite <- app_assoc; reflexivity| |exact Hds].
    apply forallb_app_good. split; [exact Hrs|].
    cbn [forallb]. rewrite Hd. reflexivity.
Qed.

Lemma startswith_app (a b : str) : startswith (a ++ b) a = true.
Proof. unfold startswith. rewrite strip_prefix_app. reflexivity. Qed.

Lemma abs_path_app (rs comps : list str) :
  exists t, abs_path (rs ++ comps) = abs_path rs ++ t.
Proof.
  destruct rs as [|r rs].
  - exists (join [SLASH] comps). rewrite abs_path_join. reflexivity.
  - exists (slashed comps). cbn [app abs_path].
    change (r :: rs ++ comps) with ((r :: rs) ++ comps).
    apply slashed_app.
Qed.

Lemma startswith_abs_path (rs comps : list str) :
  startswith (abs_path (rs ++ comps)) (abs_path rs) = true.
Proof.
  destruct (abs_path_app rs comps) as (t & ->). apply startswith_app.
Qed.

Lemma lstrip_chars_first (chars s : str) :
  forall c t, lstrip_chars chars s = c :: t -> existsb (N.eqb c) chars = false.
Proof.
  induction s as [|x s IH]; intros c t; cbn [lstrip_chars]; [discriminate|].
  destruct (existsb (N.eqb x) chars) eqn:E; [apply IH|].
  intros H; inversion H; subst. exact E.
Qed.

Lemma sanitized_first (p : str) : startswith (sanitized p) [SLASH] = false.
Proof.
  unfold sanitized, startswith.
  destruct (lstrip_chars [SLASH; BACKSLASH] p) as [|c t] eqn:E;
    [reflexivity|].
  apply lstrip_chars_first in E. cbn [existsb] in E.
  apply orb_false_iff in E. destruct E as [E _].
  cbn [strip_prefix]. rewrite N.eqb_sym, E. reflexivity.
Qed.

(** The target of every entry is a normal absolute path. *)
Lemma target_abs (cwd : str) (rs : list str) (p : str) :
  forallb good_name rs = true ->
  exists cs, forallb good_name cs = true /\
             target cwd (abs_path rs) p = abs_path cs.
Proof.
  intros Hrs. unfold target.
  rewrite (path_join_abs _ _ Hrs (sanitized_first p)).
  destruct rs as [|r rs].
  - destruct (normpath_abs _ (sanitized_first p)) as (cs & Hcs & En).
    exists cs. split; [exact Hcs|exact En].
  - cbn [forallb] in Hrs. apply andb_true_iff in Hrs.
    destruct Hrs as [Hr _]. pose proof (good_name_first _ Hr) as Hf.
    destruct (good_name_spec _ Hr) as (Hn & _).
    destruct r as [|x r]; [congruence|].
    cbn [slashed flat_map]. simpl app.
    match goal with
    | |- context [abspath cwd (SLASH :: ?s)] =>
        destruct (normpath_abs s (startswith_head _ _ _ Hf))
          as (cs & Hcs & En)
    end.
    exists cs. split; [exact Hcs|exact En].
Qed.

Lemma rfind_no_slash (x : str) : no_slash x -> rfind [SLASH] x = None.
Proof.
  induction 1 as [|c x Hc Hx IH]; [reflexivity|].
  cbn [rfind]. rewrite IH. unfold startswith. cbn [strip_prefix].
  destruct (N.eqb_spec SLASH c) as [e|]; [congruence|reflexivity].
Qed.

Lemma rfind_last_slash (a x : str) :
  no_slash x -> rfind [SLASH] (a ++ SLASH :: x) = Some (length a).
Proof.
  intros Hx. induction a as [|c a IH].
  - cbn [app rfind]. rewrite (rfind_no_slash _ Hx). reflexivity.
  - simpl app. cbn [rfind]. rewrite IH. reflexivity.
Qed.

Lemma firstn_snoc {A : Type} (a : list A) (c : A) (x : list A) :
  firstn (length a + 1) (a ++ c :: x) = a ++ [c].
Proof.
  induction a as [|y a IH]; [reflexivity|].
  simpl. rewrite IH. reflexivity.
Qed.

Lemma dirname_snoc (a x : str) :
  no_slash x ->
  dirname (a ++ SLASH :: x)
  = if nonempty (a ++ [SLASH]) && negb (forallb (N.eqb SLASH) (a ++ [SLASH]))
    then rstrip_chars [SLASH] (a ++ [SLASH]) else a ++ [SLASH].
Proof.
  intros Hx. unfold dirname. rewrite (rfind_last_slash _ _ Hx), firstn_snoc.
  destruct (a ++ [SLASH]) eqn:E; reflexivity.
Qed.

Lemma slashed_single (x : str) : slashed [x] = SLASH :: x.
Proof. cbn [slashed flat_map]. apply app_nil_r. Qed.

Lemma dirname_abs_path (cs : list str) (x : str) :
  forallb good_name cs = true -> good_name x = true ->
  dirname (abs_path (cs ++ [x])) = abs_path cs.
Proof.
  intros Hcs Hx. destruct (good_name_spec _ Hx) as (_ & Hns & _).
  destruct cs as [|c cs].
  - cbn [app abs_path]. rewrite slashed_single.
    apply (dirname_snoc [] x Hns).
  - change (abs_path ((c :: cs) ++ [x])) with (slashed ((c :: cs) ++ [x])).
    rewrite slashed_app, slashed_single, (dirname_snoc _ _ Hns).
    cbn [abs_path]. destruct (slashed_last _ _ Hcs) as (s & z & -> & Hz).
    replace (nonempty ((s ++ [z]) ++ [SLASH])) with true
      by (destruct s; reflexivity).
    rewrite !forallb_app. cbn [forallb andb].
    destruct (N.eqb_spec SLASH z) as [e|]; [congruence|].
    rewrite andb_false_r. cbn [andb negb].
    unfold rstrip_chars. rewrite !rev_app_distr. cbn [rev app lstrip_chars].
    cbn [existsb]. rewrite N.eqb_refl. cbn [orb].
    destruct (N.eqb_spec z SLASH) as [e|]; [congruence|]. cbn [orb].
    change (z :: rev s) with ([z] ++ rev s).
    rewrite rev_app_distr, rev_involutive. reflexivity.
Qed.

(** *** [relpath] *)

Lemma str_eqb_refl (s : str) : str_eqb s s = true.
Proof. apply str_eqb_eq. reflexivity. Qed.

Lemma commonprefix_app (a b : list str) : commonprefix a (a ++ b) = a.
Proof.
  induction a as [|x a IH]; [destruct b; reflexivity|].
  simpl. rewrite str_eqb_refl, IH. reflexivity.
Qed.

Lemma fold_path_join (l : list str) (a : str) (z : char) :
  forallb good_name l = true -> z <> SLASH ->
  fold_left path_join l (a ++ [z]) = (a ++ [z]) ++ slashed l.
Proof.
  revert a z; induction l as [|d l IH]; intros a z Hl Hz.
  - rewrite app_nil_r. reflexivity.
  - cbn [forallb] in Hl. apply andb_true_iff in Hl. destruct Hl as [Hd Hl].
    cbn [fold_left]. unfold path_join at 2.
    rewrite (good_name_first _ Hd). unfold endswith_char.
    rewrite ends_withb_snoc.
    destruct (a ++ [z]) eqn:E; [destruct a; discriminate|]. rewrite <- E.
    destruct (N.eqb_spec SLASH z) as [e|]; [congruence|].
    destruct (good_name_last _ Hd) as (d0 & y & Ed & Hy).
    rewrite Ed.
    replace ((a ++ [z]) ++ [SLASH] ++ d0 ++ [y])
      with ((a ++ [z] ++ [SLASH] ++ d0) ++ [y])
      by (rewrite <- !app_assoc; reflexivity).
    rewrite (IH _ _ Hl Hy). cbn [slashed flat_map].
    rewrite <- !app_assoc. simpl app. rewrite <- !app_assoc. reflexivity.
Qed.

(** The path of a descendant relative to its ancestor. *)
Lemma relpath_abs_path (cwd : str) (rs : list str) (c : str) (cs : list str) :
  forallb good_name rs = true -> forallb good_name (c :: cs) = true ->
  relpath cwd (abs_path (rs ++ c :: cs)) (abs_path rs)
  = join [SLASH] (c :: cs).
Proof.
  intros Hrs Hcs.
  assert (Hall : forallb good_name (rs ++ c :: cs) = true)
    by (apply forallb_app_good; auto).
  unfold relpath.
  rewrite (abspath_abs_path _ _ Hrs), (abspath_abs_path _ _ Hall).
  fold (components (abs_path rs)). fold (components (abs_path (rs ++ c :: cs))).
  rewrite (components_abs_path _ Hrs), (components_abs_path _ Hall).
  rewrite commonprefix_app, Nat.sub_diag. cbn [repeat app].
  rewrite skipn_app, skipn_all, Nat.sub_diag. cbn [skipn app].
  cbn [forallb] in Hcs. apply andb_true_iff in Hcs. destruct Hcs as [Hc Hl].
  destruct (good_name_last _ Hc) as (c0 & z & -> & Hz).
  rewrite (fold_path_join _ _ _ Hl Hz).
  destruct cs as [|d cs]; [apply app_nil_r|].
  rewrite join_cons, slashed_join. reflexivity.
Qed.

Lemma replace_char_id (a b : char) (s : str) :
  existsb (N.eqb a) s = false -> replace_char a b s = s.
Proof.
  induction s as [|c s IH]; [reflexivity|]. cbn [existsb replace_char map].
  intros H. apply orb_false_iff in H. destruct H as [H1 H2].
  rewrite N.eqb_sym, H1. f_equal. apply IH, H2.
Qed.

(** ** The file system: what each call changes *)

Lemma entry_lookup_set (k k' : str) (n : node) (es : list (str * node)) :
  entry_lookup k' (entry_set k n es)
  = if str_eqb k k' then Some n else entry_lookup k' es.
Proof.
  induction es as [|[a v] es IH]; cbn [entry_set entry_lookup].
  - destruct (str_eqb k k'); reflexivity.
  - destruct (str_eqb a k) eqn:E; cbn [entry_lookup].
    + apply str_eqb_eq in E. subst a.
      destruct (str_eqb k k'); reflexivity.
    + rewrite IH. destruct (str_eqb a k') eqn:E'; [|reflexivity].
      apply str_eqb_eq in E'. subst a.
      destruct (str_eqb k k') eqn:E2; [|reflexivity].
      apply str_eqb_eq in E2. subst. rewrite str_eqb_refl in E. discriminate.
Qed.

Lemma str_eqb_sym (a b : str) : str_eqb a b = str_eqb b a.
Proof.
  destruct (str_eqb a b) eqn:E.
  - apply str_eqb_eq in E. subst. symmetry. apply str_eqb_refl.
  - destruct (str_eqb b a) eqn:E'; [|reflexivity].
    apply str_eqb_eq in E'. subst. rewrite str_eqb_refl in E. discriminate.
Qed.

Lemma entry_lookup_remove (k k' : str) (es : list (str * node)) :
  entry_lookup k' (entry_remove k es)
  = if str_eqb k k' then None else entry_lookup k' es.
Proof.
  unfold entry_remove.
  induction es as [|[a v] es IH]; cbn [filter entry_lookup fst].
  - destruct (str_eqb k k'); reflexivity.
  - destruct (str_eqb a k) eqn:E; cbn [negb entry_lookup].
    + apply str_eqb_eq in E. subst a. rewrite IH.
      destruct (str_eqb k k'); reflexivity.
    + rewrite IH. destruct (str_eqb a k') eqn:E'; [|reflexivity].
      apply str_eqb_eq in E'. subst a.
      destruct (str_eqb k k') eqn:E2; [|reflexivity].
      apply str_eqb_eq in E2. subst. rewrite str_eqb_refl in E. discriminate.
Qed.

Lemma lookup_app (a b : list str) (n : node) :
  lookup (a ++ b) n
  = match lookup a n with Some m => lookup b m | None => None end.
Proof.
  revert n; induction a as [|c a IH]; intros n; [reflexivity|].
  cbn [app lookup]. destruct n as [?|es]; [reflexivity|].
  destruct (entry_lookup c es); [apply IH|reflexivity].
Qed.

Lemma is_prefix_app (a q : list str) :
  is_prefix a q = true -> exists rest, q = a ++ rest.
Proof.
  revert q; induction a as [|x a IH]; intros q; [exists q; reflexivity|].
  destruct q as [|y q]; [discriminate|]. cbn [is_prefix].
  rewrite andb_true_iff, str_eqb_eq. intros [-> H].
  destruct (IH _ H) as (rest & ->). exists rest; reflexivity.
Qed.

Lemma is_prefix_refl_app (a rest : list str) : is_prefix a (a ++ rest) = true.
Proof.
  induction a as [|x a IH]; [reflexivity|].
  cbn [app is_prefix]. rewrite str_eqb_refl, IH. reflexivity.
Qed.

Lemma unsnoc_snoc (p : list str) (x : str) : unsnoc (p ++ [x]) = Some (p, x).
Proof.
  induction p as [|y p IH]; [reflexivity|].
  cbn [app unsnoc]. rewrite IH. destruct (p ++ [x]) eqn:E; [|reflexivity].
  destruct p; discriminate.
Qed.

Lemma unsnoc_Some (l p : list str) (x : str) :
  unsnoc l = Some (p, x) -> l = p ++ [x].
Proof.
  revert p; induction l as [|y l IH]; intros p; [discriminate|].
  cbn [unsnoc]. destruct l as [|z l].
  - intros H; inversion H; reflexivity.
  - destruct (unsnoc (z :: l)) as [[p' x']|]; [|discriminate].
    intros H; inversion H; subst. rewrite (IH _ eq_refl). reflexivity.
Qed.

(** [update_dir] changes the listing of one directory and nothing beside
    it. *)
Lemma update_dir_spec (parent : list str)
    (f : list (str * node) -> option (list (str * node))) (fs fs' : node) :
  update_dir parent f fs = Some fs' ->
  exists es es',
    lookup parent fs = Some (Dir es) /\ f es = Some es' /\
    (forall rest, lookup (parent ++ rest) fs' = lookup rest (Dir es')) /\
    (forall q, is_prefix parent q = false -> stat fs' q = stat fs q).
Proof.
  revert fs fs'; induction parent as [|c parent IH]; intros fs fs'.
  - destruct fs as [?|es]; [discriminate|]. cbn [update_dir].
    destruct (f es) as [es'|] eqn:E; [|discriminate].
    intros H; inversion H; subst. exists es, es'.
    split; [reflexivity|]. split; [exact E|].
    split; [reflexivity|discriminate].
  - destruct fs as [?|es]; [discriminate|]. cbn [update_dir].
    destruct (entry_lookup c es) as [child|] eqn:El; [|discriminate].
    destruct (update_dir parent f child) as [child'|] eqn:Eu; [|discriminate].
    intros H; inversion H; subst.
    destruct (IH _ _ Eu) as (es0 & es' & H1 & H2 & H3 & H4).
    exists es0, es'. repeat split.
    + cbn [lookup]. rewrite El. exact H1.
    + exact H2.
    + intros rest. cbn [app lookup].
      rewrite entry_lookup_set, str_eqb_refl. apply H3.
    + intros q Hq. destruct q as [|k q]; [reflexivity|].
      unfold stat. cbn [lookup]. rewrite entry_lookup_set.
      cbn [is_prefix] in Hq. destruct (str_eqb c k) eqn:E.
      * apply str_eqb_eq in E. subst k. rewrite El.
        cbn [andb] in Hq. apply (H4 _ Hq).
      * reflexivity.
Qed.

Lemma update_dir_ok (parent : list str)
    (f : list (str * node) -> option (list (str * node)))
    (fs : node) (es es' : list (str * node)) :
  lookup parent fs = Some (Dir es) -> f es = Some es' ->
  exists fs', update_dir parent f fs = Some fs'.
Proof.
  revert fs; induction parent as [|c parent IH]; intros fs Hl Hf.
  - cbn [lookup] in Hl. inversion Hl; subst. cbn [update_dir].
    rewrite Hf. eexists; reflexivity.
  - destruct fs as [?|es0]; [discriminate|]. cbn [lookup] in Hl.
    cbn [update_dir].
    destruct (entry_lookup c es0) as [child|]; [|discriminate].
    destruct (IH _ Hl Hf) as (child' & ->). eexists; reflexivity.
Qed.

Lemma stat_KDir (fs : node) (q : list str) :
  stat fs q = Some KDir <-> exists es, lookup q fs = Some (Dir es).
Proof.
  unfold stat. destruct (lookup q fs) as [[d|es]|]; simpl; split;
    try discriminate; try (intros (es' & H); discriminate).
  - intros _. exists es; reflexivity.
  - reflexivity.
Qed.

Lemma stat_KFile (fs : node) (q : list str) (d : bytes) :
  stat fs q = Some (KFile d) <-> lookup q fs = Some (File d).
Proof.
  unfold stat. destruct (lookup q fs) as [[d'|es]|]; simpl; split;
    try discriminate; intros H; inversion H; reflexivity.
Qed.

(** Changing the entry [name] of the directory [parent] from one leaf to
    another (a file, an empty directory or nothing) changes [stat] at
    [parent/name] only. *)
Lemma update_entry_spec (parent : list str) (name : str)
    (f : list (str * node) -> option (list (str * node)))
    (fs fs' : node) (new : option node) :
  update_dir parent f fs = Some fs' ->
  (forall es es', f es = Some es' ->
     (forall k, entry_lookup k es'
                = if str_eqb name k then new else entry_lookup k es) /\
     (forall c r, match entry_lookup name es with
                  | Some m => lookup (c :: r) m
                  | None => None
                  end = None)) ->
  (forall c r, match new with
               | Some m => lookup (c :: r) m
               | None => None
               end = None) ->
  stat fs' (parent ++ [name]) = option_map kind_of new /\
  (forall q, q <> parent ++ [name] -> stat fs' q = stat fs q).
Proof.
  intros Hu Hf Hnew.
  destruct (update_dir_spec _ _ _ _ Hu) as (es & es' & Hl & Hes & Ha & Hb).
  destruct (Hf _ _ Hes) as [Hk Hold]. split.
  - unfold stat. rewrite Ha. cbn [lookup]. rewrite Hk, str_eqb_refl.
    destruct new; reflexivity.
  - intros q Hq. destruct (is_prefix parent q) eqn:Ep; [|apply Hb, Ep].
    apply is_prefix_app in Ep. destruct Ep as (rest & ->).
    unfold stat. rewrite Ha, lookup_app, Hl.
    destruct rest as [|k r]; [reflexivity|]. cbn [lookup].
    rewrite Hk. destruct (str_eqb name k) eqn:E; [|reflexivity].
    apply str_eqb_eq in E. subst k.
    destruct r as [|c r]; [congruence|].
    specialize (Hnew c r). specialize (Hold c r).
    destruct new as [m|], (entry_lookup name es) as [m'|];
      rewrite ?Hnew, ?Hold; reflexivity.
Qed.

Lemma sys_write_spec (comps : list str) (data : bytes) (fs fs' : node) :
  sys_write comps data fs = Some fs' ->
  stat fs' comps = Some (KFile data) /\
  (forall q, q <> comps -> stat fs' q = stat fs q).
Proof.
  unfold sys_write. destruct (unsnoc comps) as [[parent name]|] eqn:E;
    [|discriminate].
  apply unsnoc_Some in E. subst comps. intros Hu.
  apply (update_entry_spec _ _ _ _ _ (Some (File data)) Hu);
    [|reflexivity].
  intros es es'. destruct (entry_lookup name es) as [[d|l]|] eqn:El;
    try discriminate; intros H; inversion H; subst;
    (split; [intros k; apply entry_lookup_set | reflexivity]).
Qed.

Lemma sys_mkdir_spec (comps : list str) (fs fs' : node) :
  sys_mkdir comps fs = Some fs' ->
  stat fs' comps = Some KDir /\
  (forall q, q <> comps -> stat fs' q = stat fs q).
Proof.
  unfold sys_mkdir. destruct (unsnoc comps) as [[parent name]|] eqn:E;
    [|discriminate].
  apply unsnoc_Some in E. subst comps. intros Hu.
  apply (update_entry_spec _ _ _ _ _ (Some (Dir [])) Hu); [|reflexivity].
  intros es es'. destruct (entry_lookup name es) as [m|] eqn:El;
    try discriminate; intros H; inversion H; subst.
  split; [intros k; apply entry_lookup_set | reflexivity].
Qed.

Lemma sys_unlink_spec (comps : list str) (fs fs' : node) :
  sys_unlink comps fs = Some fs' ->
  stat fs' comps = None /\
  (forall q, q <> comps -> stat fs' q = stat fs q).
Proof.
  unfold sys_unlink. destruct (unsnoc comps) as [[parent name]|] eqn:E;
    [|discriminate].
  apply unsnoc_Some in E. subst comps. intros Hu.
  apply (update_entry_spec _ _ _ _ _ None Hu); [|reflexivity].
  intros es es'. destruct (entry_lookup name es) as [[d|l]|] eqn:El;
    try discriminate; intros H; inversion H; subst.
  split; [intros k; apply entry_lookup_remove | reflexivity].
Qed.

Lemma sys_rmdir_spec (comps : list str) (fs fs' : node) :
  sys_rmdir comps fs = Some fs' ->
  stat fs' comps = None /\
  (forall q, q <> comps -> stat fs' q = stat fs q).
Proof.
  unfold sys_rmdir. destruct (unsnoc comps) as [[parent name]|] eqn:E;
    [|discriminate].
  apply unsnoc_Some in E. subst comps. intros Hu.
  apply (update_entry_spec _ _ _ _ _ None Hu); [|reflexivity].
  intros es es'. destruct (entry_lookup name es) as [[d|[|e l]]|] eqn:El;
    try discriminate; intros H; inversion H; subst.
  split; [intros k; apply entry_lookup_remove | reflexivity].
Qed.

Lemma lookup_snoc (parent : list str) (name : str) (fs : node)
    (es : list (str * node)) :
  lookup parent fs = Some (Dir es) ->
  lookup (parent ++ [name]) fs = entry_lookup name es.
Proof.
  intros H. rewrite lookup_app, H. cbn [lookup].
  destruct (entry_lookup name es); reflexivity.
Qed.

Lemma sys_write_ok (parent : list str) (name : str) (data : bytes)
    (fs : node) :
  stat fs parent = Some KDir ->
  stat fs (parent ++ [name]) <> Some KDir ->
  exists fs', sys_write (parent ++ [name]) data fs = Some fs'.
Proof.
  intros Hp Ht. apply stat_KDir in Hp. destruct Hp as (es & Hl).
  unfold sys_write. rewrite unsnoc_snoc.
  unfold stat in Ht. rewrite (lookup_snoc _ _ _ _ Hl) in Ht.
  destruct (entry_lookup name es) as [[d|l]|] eqn:El.
  - eapply update_dir_ok; [exact Hl|]. rewrite El. reflexivity.
  - exfalso. apply Ht. reflexivity.
  - eapply update_dir_ok; [exact Hl|]. rewrite El. reflexivity.
Qed.

Lemma sys_mkdir_ok (parent : list str) (name : str) (fs : node) :
  stat fs parent = Some KDir ->
  stat fs (parent ++ [name]) = None ->
  exists fs', sys_mkdir (parent ++ [name]) fs = Some fs'.
Proof.
  intros Hp Ht. apply stat_KDir in Hp. destruct Hp as (es & Hl).
  unfold sys_mkdir. rewrite unsnoc_snoc.
  unfold stat in Ht. rewrite (lookup_snoc _ _ _ _ Hl) in Ht.
  destruct (entry_lookup name es) as [m|] eqn:El; [discriminate|].
  eapply update_dir_ok; [exact Hl|]. rewrite El. reflexivity.
Qed.

(** ** Deleting a file and cleaning up its directory: claim C7 *)

Lemma abs_path_inj (a b : list str) :
  forallb good_name a = true -> forallb good_name b = true ->
  abs_path a = abs_path b -> a = b.
Proof.
  intros Ha Hb E. rewrite <- (components_abs_path _ Ha),
    <- (components_abs_path _ Hb), E. reflexivity.
Qed.

Lemma lookup_snoc_inv (pc : list str) (name : str) (fs m : node) :
  lookup (pc ++ [name]) fs = Some m ->
  exists es, lookup pc fs = Some (Dir es) /\ entry_lookup name es = Some m.
Proof.
  rewrite lookup_app. destruct (lookup pc fs) as [[d|es]|]; try discriminate.
  cbn [lookup]. destruct (entry_lookup name es) as [m'|] eqn:E;
    [|discriminate].
  intros H; inversion H; subst. exists es; auto.
Qed.

Lemma sys_unlink_file (pc : list str) (name : str) (fs : node)
    (es : list (str * node)) (d : bytes) :
  lookup pc fs = Some (Dir es) -> entry_lookup name es = Some (File d) ->
  exists fs1, sys_unlink (pc ++ [name]) fs = Some fs1 /\
              lookup pc fs1 = Some (Dir (entry_remove name es)).
Proof.
  intros Hl He. unfold sys_unlink. rewrite unsnoc_snoc.
  destruct (update_dir_ok pc
              (fun es => match entry_lookup name es with
                         | Some (File _) => Some (entry_remove name es)
                         | _ => None
                         end) fs es (entry_remove name es) Hl)
    as (fs1 & Hu); [rewrite He; reflexivity|].
  exists fs1. split; [exact Hu|].
  destruct (update_dir_spec _ _ _ _ Hu) as (es0 & es' & Hl0 & Hf & Ha & _).
  rewrite Hl in Hl0. inversion Hl0; subst es0. rewrite He in Hf.
  inversion Hf; subst es'. specialize (Ha []). rewrite app_nil_r in Ha.
  exact Ha.
Qed.

Lemma sys_rmdir_empty (pp : list str) (pname : str) (fs : node) :
  lookup (pp ++ [pname]) fs = Some (Dir []) ->
  exists fs2, sys_rmdir (pp ++ [pname]) fs = Some fs2.
Proof.
  intros Hl. apply lookup_snoc_inv in Hl. destruct Hl as (es & Hl & He).
  unfold sys_rmdir. rewrite unsnoc_snoc.
  eapply update_dir_ok; [exact Hl|]. rewrite He. reflexivity.
Qed.

Lemma map_fst_nil {A B : Type} (l : list (A * B)) : map fst l = [] -> l = [].
Proof. destruct l; [reflexivity|discriminate]. Qed.

(** C7.  Deleting a regular file [cs/name] below a project root [rs] that
    is a directory: the file is gone; its directory [cs] is removed when
    the deletion has left it without entry and it is not the project
    root, and stays otherwise; every other path keeps its state, the
    directories above [cs] included; the project root is still a
    directory. *)
Theorem delete_entry_cleanup (cwd : str) (rs : list str) (fs : node)
    (p sanitized_path : str) (log : list event) (d : bytes) :
  forallb good_name rs = true ->
  stat fs rs = Some KDir ->
  read_bytes cwd fs (target cwd (abs_path rs) p) = Some d ->
  exists cs name es,
    resolve cwd (target cwd (abs_path rs) p) = cs ++ [name] /\
    resolve cwd (dirname (target cwd (abs_path rs) p)) = cs /\
    lookup cs fs = Some (Dir es) /\
    let fs' := fst (delete_entry cwd (abs_path rs)
                      (abspath cwd (abs_path rs))
                      (target cwd (abs_path rs) p) sanitized_path fs log) in
    stat fs' (cs ++ [name]) = None /\
    (entry_remove name es = [] /\ cs <> rs -> stat fs' cs = None) /\
    (~ (entry_remove name es = [] /\ cs <> rs) -> stat fs' cs = Some KDir) /\
    (forall q, q <> cs ++ [name] -> q <> cs -> stat fs' q = stat fs q) /\
    stat fs' rs = Some KDir.
Proof.
  intros Hrs Hroot Hread.
  destruct (target_abs cwd rs p Hrs) as (tc & Htc & Et).
  rewrite Et in *. clear Et.
  unfold read_bytes in Hread. rewrite (resolve_abs_path _ _ Htc) in Hread.
  destruct (lookup tc fs) as [[d'|?]|] eqn:Hl; try discriminate.
  inversion Hread; subst d'. clear Hread.
  assert (Hne : tc <> []).
  { intros ->. cbn [lookup] in Hl. inversion Hl; subst fs.
    unfold stat in Hroot. destruct rs; discriminate. }
  destruct (exists_last Hne) as (cs & name & ->).
  apply forallb_app_good in Htc. destruct Htc as [Hcs Hname].
  cbn [forallb] in Hname. rewrite andb_true_r in Hname.
  destruct (lookup_snoc_inv _ _ _ _ Hl) as (es & Hlc & He).
  exists cs, name, es.
  assert (Hall : forallb good_name (cs ++ [name]) = true).
  { apply forallb_app_good. split; [exact Hcs|].
    cbn [forallb]. rewrite Hname. reflexivity. }
  rewrite (resolve_abs_path _ _ Hall).
  rewrite (dirname_abs_path _ _ Hcs Hname), (resolve_abs_path _ _ Hcs).
  split; [reflexivity|]. split; [reflexivity|]. split; [exact Hlc|].
  destruct (sys_unlink_file _ _ _ _ _ Hlc He) as (fs1 & Hu & Hl1).
  destruct (sys_unlink_spec _ _ _ Hu) as [Hgone Hframe1].
  assert (Hrs_ne : rs <> cs ++ [name]).
  { intros E. rewrite E in Hroot. unfold stat in Hroot. rewrite Hl in Hroot.
    discriminate. }
  assert (Hcs_ne : cs <> cs ++ [name]).
  { intros E. apply (f_equal (@length str)) in E.
    rewrite length_app in E. simpl in E. lia. }
  cbv zeta. unfold delete_entry, os_path_exists, os_path_isfile, os_remove,
    os_listdir, os_rmdir.
  rewrite (resolve_abs_path _ _ Hall), Hl. cbn [andb].
  rewrite Hu, (dirname_abs_path _ _ Hcs Hname).
  rewrite (resolve_abs_path _ _ Hcs), Hl1.
  rewrite (abspath_abs_path _ _ Hrs).
  assert (Hstat1 : stat fs1 cs = Some KDir)
    by (apply stat_KDir; eexists; exact Hl1).
  destruct (map fst (entry_remove name es)) as [|n0 ns] eqn:Enames.
  - apply map_fst_nil in Enames.
    destruct (str_eqb (abs_path cs) (abs_path rs)) eqn:Eroot; cbn [andb negb].
    + apply str_eqb_eq, (abs_path_inj _ _ Hcs Hrs) in Eroot. subst rs.
      cbn [fst]. split; [exact Hgone|]. split; [intros [_ H]; congruence|].
      split; [intros _; exact Hstat1|].
      split; [intros q Hq _; apply Hframe1, Hq | exact Hstat1].
    + assert (Hcr : cs <> rs).
      { intros ->. rewrite str_eqb_refl in Eroot. discriminate. }
      assert (Hcne : cs <> []).
      { intros ->. cbn [lookup] in Hl1. inversion Hl1; subst fs1.
        rewrite Enames in Hframe1.
        specialize (Hframe1 rs Hrs_ne). rewrite Hroot in Hframe1.
        destruct rs as [|r rs]; [congruence|discriminate]. }
      destruct (exists_last Hcne) as (pp & pname & Ecs).
      rewrite Enames in Hl1. rewrite Ecs in Hl1.
      destruct (sys_rmdir_empty _ _ _ Hl1) as (fs2 & Hr).
      rewrite <- Ecs in Hr. rewrite Hr. cbn [fst].
      destruct (sys_rmdir_spec _ _ _ Hr) as [Hgone2 Hframe2].
      split; [rewrite (Hframe2 _ (not_eq_sym Hcs_ne)); exact Hgone|].
      split; [intros _; exact Hgone2|].
      split; [intros H; exfalso; apply H; auto|].
      split.
      * intros q H1 H2. rewrite (Hframe2 _ H2). apply Hframe1, H1.
      * rewrite (Hframe2 _ (not_eq_sym Hcr)), (Hframe1 _ Hrs_ne).
        exact Hroot.
  - cbn [andb fst].
    assert (Hnot : entry_remove name es <> [])
      by (intros E; rewrite E in Enames; discriminate).
    split; [exact Hgone|]. split; [intros [H _]; contradiction|].
    split; [intros _; exact Hstat1|].
    split; [intros q Hq _; apply Hframe1, Hq|].
    rewrite (Hframe1 _ Hrs_ne). exact Hroot.
Qed.

Lemma delete_entry_cleanup_witness :
  forallb good_name [lit "home"; lit "project"] = true /\
  stat delete_fs [lit "home"; lit "project"] = Some KDir /\
  read_bytes (lit "/") delete_fs
    (target (lit "/") (abs_path [lit "home"; lit "project"])
       (lit "sub/only.txt")) = Some [120%N] /\
  exists cs name es,
    resolve (lit "/")
      (target (lit "/") (abs_path [lit "home"; lit "project"])
         (lit "sub/only.txt")) = cs ++ [name] /\
    resolve (lit "/")
      (dirname (target (lit "/") (abs_path [lit "home"; lit "project"])
                  (lit "sub/only.txt"))) = cs /\
    lookup cs delete_fs = Some (Dir es) /\
    let fs' := fst (delete_entry (lit "/")
                      (abs_path [lit "home"; lit "project"])
                      (abspath (lit "/")
                         (abs_path [lit "home"; lit "project"]))
                      (target (lit "/")
                         (abs_path [lit "home"; lit "project"])
                         (lit "sub/only.txt"))
                      (lit "sub/only.txt") delete_fs []) in
    stat fs' (cs ++ [name]) = None /\
    (entry_remove name es = [] /\ cs <> [lit "home"; lit "project"] ->
     stat fs' cs = None) /\
    (~ (entry_remove name es = [] /\ cs <> [lit "home"; lit "project"]) ->
     stat fs' cs = Some KDir) /\
    (forall q, q <> cs ++ [name] -> q <> cs -> stat fs' q = stat delete_fs q) /\
    stat fs' [lit "home"; lit "project"] = Some KDir.
Proof.
  split; [reflexivity|]. split; [reflexivity|]. split; [reflexivity|].
  apply (delete_entry_cleanup (lit "/") [lit "home"; lit "project"]
           delete_fs (lit "sub/only.txt") (lit "sub/only.txt") []
           [120%N]); reflexivity.
Defined.

(** The clean-up on concrete trees: the emptied subdirectory goes, and a
    project root emptied by the deletion of its last file stays. *)
Lemma delete_cleanup_example :
  update_project_from_xml container_fromstring (lit "/") delete_fs
    ROOT UPDATE_PATH
  = (project_fs delete_doc [],
     [UpdateMode; ApplyingChanges UPDATE_PATH;
      DeletedFile (lit "sub/only.txt"); RemovedEmptyDir (lit "sub");
      UpdateComplete 0]) /\
  fst (delete_entry (lit "/") ROOT ROOT (lit "/home/project/last.txt")
         (lit "last.txt")
         (Dir [(lit "home",
                Dir [(lit "project", Dir [(lit "last.txt", File [])])])])
         [])
  = Dir [(lit "home", Dir [(lit "project", Dir [])])].
Proof. split; reflexivity. Qed.

(** ** The round trip: claim C3 *)

(** *** What the walk adds *)

Lemma tree_files_Dir (es : list (str * node)) :
  tree_files (Dir es) = files_here es ++ sub_files es.
Proof. reflexivity. Qed.

Lemma plain_tree_Dir (es : list (str * node)) :
  plain_tree (Dir es) = nodupb (map fst es) && all_plain es.
Proof. reflexivity. Qed.

Lemma plain_name_spec (c : str) :
  plain_name c = true ->
  good_name c = true /\ existsb (N.eqb BACKSLASH) c = false.
Proof.
  unfold plain_name. rewrite andb_true_iff, negb_true_iff. auto.
Qed.

Lemma forallb_plain_good (l : list str) :
  forallb plain_name l = true -> forallb good_name l = true.
Proof.
  rewrite !forallb_forall. intros H x Hx.
  apply (plain_name_spec _ (H x Hx)).
Qed.

Lemma existsb_app_false {A : Type} (f : A -> bool) (a b : list A) :
  existsb f a = false -> existsb f b = false -> existsb f (a ++ b) = false.
Proof. intros Ha Hb. rewrite existsb_app, Ha, Hb. reflexivity. Qed.

Lemma join_no_backslash (l : list str) :
  forallb plain_name l = true ->
  existsb (N.eqb BACKSLASH) (join [SLASH] l) = false.
Proof.
  induction l as [|c l IH]; [reflexivity|]. cbn [forallb].
  rewrite andb_true_iff. intros [Hc Hl].
  destruct (plain_name_spec _ Hc) as [_ Hb].
  destruct l as [|d l]; [exact Hb|]. rewrite join_cons.
  apply existsb_app_false; [exact Hb|].
  apply existsb_app_false; [reflexivity|apply IH, Hl].
Qed.

Lemma snd_app2 {A B : Type} (x y : list A * list B) :
  snd (app2 x y) = snd x ++ snd y.
Proof. reflexivity. Qed.

Lemma fst_app2 {A B : Type} (x y : list A * list B) :
  fst (app2 x y) = fst x ++ fst y.
Proof. reflexivity. Qed.

Section Added.
Variable cwd : str.
Variable spec : PathSpec.
Variable rs : list str.
Hypothesis Hrs : forallb good_name rs = true.

(** A file that the walk adds: its block spells its relative path and its
    text. *)
Lemma visit_file_added (ds : list str) (name : str) (data : bytes) :
  forallb plain_name ds = true -> plain_name name = true ->
  forallb is_adding
    (snd (visit_file cwd spec (abs_path rs) (abs_path (rs ++ ds)) name data))
  = true ->
  fst (visit_file cwd spec (abs_path rs) (abs_path (rs ++ ds)) name data)
  = [block_of (entry_of (ds ++ [name], data))].
Proof.
  intros Hds Hname. unfold visit_file.
  destruct (match_file spec _); [discriminate|].
  destruct (is_binary_chunk _ _); [discriminate|].
  unfold block_of, entry_of, snapshot_text. cbn [fst snd].
  destruct (utf8_decode false data) as [c|]; [|discriminate].
  cbn [option_map]. intros _.
  assert (Hall : forallb plain_name (ds ++ [name]) = true).
  { rewrite forallb_app, Hds. cbn [forallb]. rewrite Hname. reflexivity. }
  pose proof (forallb_plain_good _ Hds) as Hgd.
  destruct (plain_name_spec _ Hname) as [Hgn _].
  rewrite path_join_abs_name;
    [|apply forallb_app_good; split; assumption|exact Hgn].
  rewrite <- app_assoc.
  destruct (ds ++ [name]) as [|x xs] eqn:E; [destruct ds; discriminate|].
  rewrite (relpath_abs_path cwd rs x xs Hrs (forallb_plain_good _ Hall)).
  rewrite (replace_char_id _ _ _ (join_no_backslash _ Hall)).
  reflexivity.
Qed.

Lemma visit_files_added (ds : list str) (es : list (str * node)) :
  forallb plain_name ds = true -> all_plain es = true ->
  forallb is_adding
    (snd (visit_files cwd spec (abs_path rs) (abs_path (rs ++ ds)) es))
  = true ->
  fst (visit_files cwd spec (abs_path rs) (abs_path (rs ++ ds)) es)
  = map (fun f => block_of (entry_of (ds ++ fst f, snd f))) (files_here es).
Proof.
  intros Hds. induction es as [|[k v] es IH]; [reflexivity|].
  cbn [all_plain]. rewrite !andb_true_iff. intros [[Hk Hv] Hes].
  cbn [visit_files files_here flat_map snd fst]. destruct v as [data|sub].
  - rewrite snd_app2, fst_app2, forallb_app, andb_true_iff.
    intros [H1 H2]. rewrite (visit_file_added _ _ _ Hds Hk H1).
    cbn [app map fst snd]. f_equal. apply (IH Hes H2).
  - cbn [app]. apply (IH Hes).
Qed.

Lemma ignored_dir_log_kept (dirpath : str) (names : list str) (d : str) :
  forallb is_adding (ignored_dir_log cwd spec (abs_path rs) dirpath names)
  = true ->
  In d names -> keep_dir cwd spec (abs_path rs) dirpath d = true.
Proof.
  unfold ignored_dir_log. induction names as [|x names IH]; [contradiction|].
  cbn [flat_map]. rewrite forallb_app, andb_true_iff. intros [H1 H2] [->|Hin].
  - destruct (keep_dir cwd spec (abs_path rs) dirpath d);
      [reflexivity|discriminate].
  - apply IH; assumption.
Qed.

(** When the walk reports nothing but added files, its blocks are those of
    all the files of the tree. *)
Lemma walk_all_added (T : node) :
  forall ds, forallb plain_name ds = true -> plain_tree T = true ->
  forallb is_adding
    (snd (walk cwd spec (abs_path rs) (abs_path (rs ++ ds)) T)) = true ->
  fst (walk cwd spec (abs_path rs) (abs_path (rs ++ ds)) T)
  = map (fun f => block_of (entry_of (ds ++ fst f, snd f))) (tree_files T).
Proof.
  induction T as [d|es IH] using node_induction; intros ds Hds Hp Hlog;
    [reflexivity|].
  rewrite plain_tree_Dir, andb_true_iff in Hp. destruct Hp as [_ Hp].
  rewrite walk_Dir in *. rewrite !snd_app2, !forallb_app, !andb_true_iff in Hlog.
  destruct Hlog as (Hig & Hfiles & Hdesc). cbn [snd] in Hig.
  rewrite !fst_app2. cbn [fst app]. rewrite tree_files_Dir, map_app.
  rewrite (visit_files_added _ _ Hds Hp Hfiles). f_equal.
  assert (Hkeep : forall d, In d (dirnames_of es) ->
                    keep_dir cwd spec (abs_path rs) (abs_path (rs ++ ds)) d
                    = true)
    by (intros d; apply ignored_dir_log_kept, Hig).
  clear Hig Hfiles. revert Hp Hdesc Hkeep.
  induction IH as [|[k v] es Hv _ IHes]; [reflexivity|].
  cbn [all_plain]. rewrite !andb_true_iff. intros [[Hk Hpv] Hes].
  cbn [descend sub_files snd] in *. rewrite snd_app2, fst_app2, forallb_app.
  rewrite andb_true_iff. intros [H1 H2] Hkeep. rewrite map_app.
  f_equal.
  - destruct v as [data|sub]; [reflexivity|]. cbn [is_dir andb] in *.
    rewrite (Hkeep k) in * by (left; reflexivity).
    destruct (plain_name_spec _ Hk) as [Hgk _].
    rewrite path_join_abs_name in *;
      try (apply forallb_app_good; split;
           [exact Hrs | apply forallb_plain_good, Hds]); try exact Hgk.
    rewrite <- app_assoc in *. rewrite Hv; [| |exact Hpv|exact H1].
    + rewrite map_map. apply map_ext. intros [c b]. cbn [under fst snd].
      rewrite <- app_assoc. reflexivity.
    + rewrite forallb_app, Hds. cbn [forallb]. rewrite Hk. reflexivity.
  - apply IHes; [exact Hes|exact H2|].
    intros d Hd. apply Hkeep. unfold dirnames_of in *. cbn [filter snd].
    destruct (is_dir v); [right|]; exact Hd.
Qed.
End Added.

(** *** The files of a plain tree *)

Lemma entry_lookup_nodup (es : list (str * node)) (k : str) (v : node) :
  nodupb (map fst es) = true -> In (k, v) es -> entry_lookup k es = Some v.
Proof.
  induction es as [|[a w] es IH]; [contradiction|].
  cbn [map fst nodupb entry_lookup]. rewrite andb_true_iff, negb_true_iff.
  intros [Hn Hnd] [E|Hin].
  - inversion E; subst. rewrite str_eqb_refl. reflexivity.
  - destruct (str_eqb a k) eqn:Eak; [|apply IH; assumption].
    apply str_eqb_eq in Eak. subst a. exfalso.
    assert (H : existsb (str_eqb k) (map fst es) = true); [|congruence].
    apply existsb_exists. exists k. split; [|apply str_eqb_refl].
    apply (in_map fst) in Hin. exact Hin.
Qed.

Lemma all_plain_In (es : list (str * node)) (k : str) (v : node) :
  all_plain es = true -> In (k, v) es ->
  plain_name k = true /\ plain_tree v = true.
Proof.
  induction es as [|[a w] es IH]; [contradiction|].
  cbn [all_plain]. rewrite !andb_true_iff. intros [[Ha Hw] Hes] [E|Hin].
  - inversion E; subst. auto.
  - apply IH; assumption.
Qed.

Lemma in_files_here (es : list (str * node)) (f : list str * bytes) :
  In f (files_here es) ->
  exists k, f = ([k], snd f) /\ In (k, File (snd f)) es.
Proof.
  unfold files_here. rewrite in_flat_map. intros ([k v] & Hin & Hf).
  cbn [fst snd] in Hf. destruct v as [data|?]; [|contradiction].
  destruct Hf as [<-|[]]. exists k. auto.
Qed.

Lemma in_sub_files (es : list (str * node)) (f : list str * bytes) :
  In f (sub_files es) ->
  exists d child g, In (d, child) es /\ In g (tree_files child) /\
                    f = under d g.
Proof.
  induction es as [|[d child] es IH]; [contradiction|].
  cbn [sub_files]. rewrite in_app_iff, in_map_iff.
  intros [(g & <- & Hg)|Hin].
  - exists d, child, g. repeat split; [left; reflexivity|exact Hg].
  - destruct (IH Hin) as (d' & c' & g & H1 & H2 & H3).
    exists d', c', g. repeat split; [right; exact H1|exact H2|exact H3].
Qed.

(** In a plain tree every listed file is found at its path, and the path
    is made of plain names. *)
Lemma tree_files_stat (T : node) :
  plain_tree T = true ->
  forall comps data, In (comps, data) (tree_files T) ->
    stat T comps = Some (KFile data) /\ forallb plain_name comps = true /\
    comps <> [].
Proof.
  induction T as [d|es IH] using node_induction; [contradiction|].
  rewrite plain_tree_Dir, andb_true_iff. intros [Hnd Hp] comps data.
  rewrite tree_files_Dir, in_app_iff. intros [Hin|Hin].
  - apply in_files_here in Hin. destruct Hin as (k & E & Hk).
    cbn [fst snd] in *. inversion E; subst comps.
    destruct (all_plain_In _ _ _ Hp Hk) as [Hpk _].
    unfold stat. cbn [lookup]. rewrite (entry_lookup_nodup _ _ _ Hnd Hk).
    repeat split; [|discriminate]. cbn [forallb]. rewrite Hpk. reflexivity.
  - apply in_sub_files in Hin.
    destruct Hin as (k & child & [c b] & Hk & Hg & E).
    unfold under in E. cbn [fst snd] in E. inversion E; subst comps data.
    destruct (all_plain_In _ _ _ Hp Hk) as [Hpk Hpc].
    rewrite Forall_forall in IH. specialize (IH _ Hk Hpc c b Hg).
    cbn [snd] in IH. destruct IH as (Hs & Hpl & _).
    unfold stat in *. cbn [lookup]. rewrite (entry_lookup_nodup _ _ _ Hnd Hk).
    repeat split; [exact Hs| |discriminate].
    cbn [forallb]. rewrite Hpk, Hpl. reflexivity.
Qed.

(** *** Markers of a document that is only the container block *)

Lemma find_start (x : str) : find start_tag (start_tag ++ x) = Some 0.
Proof. reflexivity. Qed.

Lemma rfind_end (a : str) : rfind end_tag (a ++ end_tag) = Some (length a).
Proof.
  induction a as [|c a IH]; [reflexivity|].
  simpl app. cbn [rfind]. rewrite IH. reflexivity.
Qed.

Lemma project_markup_markers (parts : list str) :
  exists a, project_markup parts = start_tag ++ a /\
            project_markup parts = (start_tag ++ [LF] ++ join [LF] parts
                                    ++ [LF]) ++ end_tag.
Proof.
  exists ([LF] ++ join [LF] parts ++ [LF] ++ end_tag).
  unfold project_markup, start_tag, end_tag.
  rewrite <- !app_assoc. split; reflexivity.
Qed.

Lemma slice_all (s : str) : slice s 0 (length s) = s.
Proof.
  unfold slice. rewrite Nat.sub_0_r. cbn [skipn]. apply firstn_all.
Qed.

(** The text between the markers of a bare container block is the block
    itself. *)
Lemma project_markup_slice (parts : list str) :
  exists i j,
    find start_tag (project_markup parts) = Some i /\
    rfind end_tag (project_markup parts) = Some j /\
    slice (project_markup parts) i (j + length end_tag)
    = project_markup parts.
Proof.
  destruct (project_markup_markers parts) as (a & E1 & E2).
  exists 0, (length (start_tag ++ [LF] ++ join [LF] parts ++ [LF])).
  split; [rewrite E1; apply find_start|].
  split; [rewrite E2 at 1; apply rfind_end|].
  rewrite <- length_app, <- E2. apply slice_all.
Qed.

(** *** Creating directories and writing a file *)

Lemma stat_below_None (fs : node) (a b : list str) :
  stat fs a = None -> stat fs (a ++ b) = None.
Proof.
  unfold stat. rewrite lookup_app.
  destruct (lookup a fs); [discriminate|reflexivity].
Qed.

Lemma stat_prefix_KDir (fs : node) (a b : list str) (k : kind) :
  stat fs (a ++ b) = Some k -> b <> [] -> stat fs a = Some KDir.
Proof.
  unfold stat. rewrite lookup_app. destruct (lookup a fs) as [[d|es]|];
    try discriminate; [|reflexivity].
  destruct b; [congruence|discriminate].
Qed.

Lemma is_prefix_refl (a : list str) : is_prefix a a = true.
Proof.
  rewrite <- (app_nil_r a) at 2. apply is_prefix_refl_app.
Qed.

Lemma is_prefix_snoc (q a : list str) (c : str) :
  is_prefix q a = true -> is_prefix q (a ++ [c]) = true.
Proof.
  intros H. apply is_prefix_app in H. destruct H as (r & ->).
  rewrite <- app_assoc. apply is_prefix_refl_app.
Qed.

(** The outcome of [os.makedirs]: the chain of directories down to the
    target exists, and every path either keeps its state or is a new
    directory of the chain. *)
Lemma makedirs_from_spec (rest : list str) :
  forall (prefix : list str) (fs : node),
  rest <> [] ->
  stat fs prefix = Some KDir ->
  (forall a b, rest = a ++ b -> b <> [] ->
     stat fs (prefix ++ a) = None \/ stat fs (prefix ++ a) = Some KDir) ->
  stat fs (prefix ++ rest) = None ->
  exists fs',
    makedirs_from prefix rest fs = Some fs' /\
    stat fs' (prefix ++ rest) = Some KDir /\
    (forall q, stat fs' q = stat fs q \/
               (stat fs q = None /\ stat fs' q = Some KDir /\
                is_prefix q (prefix ++ rest) = true)).
Proof.
  induction rest as [|c rest IH]; intros prefix fs Hne Hp Hchain Hnone;
    [congruence|].
  destruct rest as [|c' r].
  - cbn [makedirs_from].
    destruct (sys_mkdir_ok _ _ _ Hp Hnone) as (fs' & Hm).
    destruct (sys_mkdir_spec _ _ _ Hm) as [Hd Hf].
    exists fs'. split; [exact Hm|]. split; [exact Hd|].
    intros q. destruct (list_eq_dec (list_eq_dec N.eq_dec) q (prefix ++ [c]))
      as [->|Hq].
    + right. repeat split; [exact Hnone|exact Hd|apply is_prefix_refl].
    + left. apply Hf, Hq.
  - change (makedirs_from prefix (c :: c' :: r) fs)
      with (match lookup (prefix ++ [c]) fs with
            | Some _ => makedirs_from (prefix ++ [c]) (c' :: r) fs
            | None =>
                match sys_mkdir (prefix ++ [c]) fs with
                | Some fs' => makedirs_from (prefix ++ [c]) (c' :: r) fs'
                | None => None
                end
            end).
    assert (Eapp : forall x, prefix ++ c :: x = (prefix ++ [c]) ++ x)
      by (intros x; rewrite <- app_assoc; reflexivity).
    destruct (lookup (prefix ++ [c]) fs) as [m|] eqn:El.
    + assert (Hc : stat fs (prefix ++ [c]) = Some KDir).
      { destruct (Hchain [c] (c' :: r) eq_refl) as [H|H];
          [discriminate| |exact H].
        unfold stat in H. rewrite El in H. discriminate. }
      destruct (IH (prefix ++ [c]) fs) as (fs' & Hm & Hd & Hf);
        [discriminate|exact Hc| |rewrite <- (Eapp (c' :: r)); exact Hnone|].
      * intros a b E Hb. rewrite <- (Eapp a).
        apply (Hchain (c :: a) b); [rewrite E; reflexivity|exact Hb].
      * exists fs'. rewrite (Eapp (c' :: r)).
        split; [exact Hm|]. split; [exact Hd|exact Hf].
    + assert (Hc : stat fs (prefix ++ [c]) = None)
        by (unfold stat; rewrite El; reflexivity).
      destruct (sys_mkdir_ok _ _ _ Hp Hc) as (fs1 & Hm1).
      destruct (sys_mkdir_spec _ _ _ Hm1) as [Hd1 Hf1]. rewrite Hm1.
      assert (Hbelow : forall x, x <> [] ->
                stat fs1 ((prefix ++ [c]) ++ x) = None).
      { intros x Hx. rewrite Hf1.
        - apply stat_below_None, Hc.
        - intros E. rewrite <- (app_nil_r (prefix ++ [c])) in E at 2.
          apply app_inv_head in E. contradiction. }
      destruct (IH (prefix ++ [c]) fs1) as (fs' & Hm & Hd & Hf);
        [discriminate|exact Hd1| |apply Hbelow; discriminate|].
      * intros a b E Hb. destruct a as [|x a].
        -- right. rewrite app_nil_r. exact Hd1.
        -- left. apply Hbelow. discriminate.
      * exists fs'. rewrite (Eapp (c' :: r)).
        split; [exact Hm|]. split; [exact Hd|].
        intros q. destruct (Hf q) as [H|(H1 & H2 & H3)].
        -- destruct (list_eq_dec (list_eq_dec N.eq_dec) q (prefix ++ [c]))
             as [->|Hq].
           ++ right. rewrite H, Hd1. repeat split; [exact Hc|].
              apply is_prefix_refl_app.
           ++ left. rewrite H. apply Hf1, Hq.
        -- right. repeat split; [|exact H2|exact H3].
           destruct (list_eq_dec (list_eq_dec N.eq_dec) q (prefix ++ [c]))
             as [->|Hq]; [exact Hc|].
           rewrite <- (Hf1 _ Hq). exact H1.
Qed.

Lemma write_text_spec (cwd : str) (fs : node) (p c : str)
    (parent : list str) (name : str) (data : bytes) :
  resolve cwd p = parent ++ [name] ->
  stat fs parent = Some KDir ->
  stat fs (parent ++ [name]) <> Some KDir ->
  utf8_encode c = Some data ->
  exists fs',
    write_text cwd fs p c = (fs', false) /\
    stat fs' (parent ++ [name]) = Some (KFile data) /\
    (forall q, q <> parent ++ [name] -> stat fs' q = stat fs q).
Proof.
  intros Hr Hp Ht He. unfold write_text. rewrite Hr, He.
  destruct (sys_write_ok parent name [] fs Hp Ht) as (fs0 & H0).
  rewrite H0. destruct (sys_write_spec _ _ _ _ H0) as [Hs0 Hf0].
  assert (Hneq : parent <> parent ++ [name]).
  { intros E. apply (f_equal (@length str)) in E.
    rewrite length_app in E. simpl in E. lia. }
  destruct (sys_write_ok parent name data fs0) as (fs1 & H1).
  - rewrite (Hf0 _ Hneq). exact Hp.
  - rewrite Hs0. discriminate.
  - rewrite H1. destruct (sys_write_spec _ _ _ _ H1) as [Hs1 Hf1].
    exists fs1. split; [reflexivity|]. split; [exact Hs1|].
    intros q Hq. rewrite (Hf1 _ Hq). apply Hf0, Hq.
Qed.

(** The write branch on a target [pc/name] whose ancestors are absent or
    directories and which is no directory itself: the file is written,
    and every other path keeps its state or is a new directory above the
    file. *)
Lemma write_entry_spec (cwd root_dir san c : str) (pc : list str)
    (name : str) (data : bytes) (fs : node) (log : list event) (n : nat) :
  forallb good_name pc = true -> good_name name = true ->
  utf8_encode c = Some data ->
  stat fs [] = Some KDir ->
  (forall a b, pc = a ++ b ->
     stat fs a = None \/ stat fs a = Some KDir) ->
  stat fs (pc ++ [name]) <> Some KDir ->
  exists fs' log' n',
    write_entry cwd root_dir (abs_path (pc ++ [name])) san c (fs, log, n)
    = (fs', log', n') /\
    stat fs' (pc ++ [name]) = Some (KFile data) /\
    (forall q, q <> pc ++ [name] ->
       stat fs' q = stat fs q \/
       (stat fs q = None /\ stat fs' q = Some KDir /\
        is_prefix q pc = true)).
Proof.
  intros Hpc Hname He Hroot Hchain Ht.
  assert (Hall : forallb good_name (pc ++ [name]) = true).
  { apply forallb_app_good. split; [exact Hpc|].
    cbn [forallb]. rewrite Hname. reflexivity. }
  unfold write_entry. rewrite (dirname_abs_path _ _ Hpc Hname).
  unfold os_path_exists, os_makedirs. rewrite (resolve_abs_path _ _ Hpc).
  destruct (lookup pc fs) as [m|] eqn:El; cbn [negb].
  - assert (Hp : stat fs pc = Some KDir).
    { destruct (Hchain pc [] (eq_sym (app_nil_r pc))) as [H|H];
        [|exact H]. unfold stat in H. rewrite El in H. discriminate. }
    destruct (write_text_spec cwd fs (abs_path (pc ++ [name])) c pc name
                data (resolve_abs_path _ _ Hall) Hp Ht He)
      as (fs' & Hw & Hs & Hf).
    rewrite Hw. do 3 eexists. split; [reflexivity|]. split; [exact Hs|].
    intros q Hq. left. apply Hf, Hq.
  - assert (Hp : stat fs pc = None) by (unfold stat; rewrite El; reflexivity).
    assert (Hne : pc <> []) by (intros ->; rewrite Hroot in Hp; discriminate).
    destruct (makedirs_from_spec pc [] fs Hne Hroot) as (fs1 & Hm & Hd & Hf1).
    + intros a b E _. apply (Hchain a b E).
    + exact Hp.
    + cbn [app] in *. rewrite Hm.
      assert (Ht1 : stat fs1 (pc ++ [name]) <> Some KDir).
      { destruct (Hf1 (pc ++ [name])) as [H|(_ & _ & H)].
        - rewrite H. exact Ht.
        - apply is_prefix_app in H. destruct H as (r & E).
          apply (f_equal (@length str)) in E. rewrite !length_app in E.
          simpl in E. lia. }
      destruct (write_text_spec cwd fs1 (abs_path (pc ++ [name])) c pc name
                  data (resolve_abs_path _ _ Hall) Hd Ht1 He)
        as (fs' & Hw & Hs & Hf).
      rewrite Hw. do 3 eexists. split; [reflexivity|]. split; [exact Hs|].
      intros q Hq. rewrite (Hf _ Hq). apply Hf1.
Qed.

(** *** The entry of a clean text file *)

Lemma universal_newlines_id (c : str) :
  Forall (fun x => x <> CR) c -> universal_newlines c = c.
Proof.
  induction 1 as [|x c Hx Hc IH]; [reflexivity|].
  cbn [universal_newlines]. destruct (N.eqb_spec x CR); [contradiction|].
  rewrite IH. reflexivity.
Qed.

Lemma clean_fixed_no_CR (c : str) :
  clean_content c = c -> Forall (fun x => x <> CR) c.
Proof.
  intros E. pose proof (clean_content_only_LF c) as H. rewrite E in H.
  eapply Forall_impl; [|exact H]. intros x Hx ->.
  specialize (Hx eq_refl). discriminate.
Qed.

Lemma clean_text_spec (data : bytes) :
  clean_text data = true ->
  utf8_encode (snapshot_text data) = Some data /\
  clean_content (snapshot_text data) = snapshot_text data.
Proof.
  unfold clean_text, snapshot_text.
  destruct (utf8_decode false data) as [c|]; [|discriminate].
  rewrite andb_true_iff. intros [H1 H2]. apply str_eqb_eq in H2.
  rewrite (universal_newlines_id _ (clean_fixed_no_CR _ H2)).
  split; [|exact H2].
  destruct (utf8_encode c) as [d|]; [|discriminate].
  apply str_eqb_eq in H1. subst d. reflexivity.
Qed.

Lemma lstrip_chars_id (chars : str) (x : char) (s : str) :
  existsb (N.eqb x) chars = false -> lstrip_chars chars (x :: s) = x :: s.
Proof. intros H. cbn [lstrip_chars]. rewrite H. reflexivity. Qed.

Lemma plain_join_head (c : str) (cs : list str) :
  plain_name c = true ->
  exists x s, join [SLASH] (c :: cs) = x :: s /\
              existsb (N.eqb x) [SLASH; BACKSLASH] = false.
Proof.
  intros H. destruct (plain_name_spec _ H) as [Hg Hb].
  destruct (good_name_spec _ Hg) as (Hn & Hs & _).
  destruct c as [|x c]; [congruence|].
  exists x, (match cs with [] => c | _ => c ++ [SLASH] ++ join [SLASH] cs end).
  split; [destruct cs; reflexivity|].
  inversion Hs; subst. cbn [existsb] in *.
  apply orb_false_iff in Hb. destruct Hb as [Hb _].
  destruct (N.eqb_spec x SLASH); [contradiction|].
  rewrite N.eqb_sym, Hb. reflexivity.
Qed.

(** The target of a relative path of plain names. *)
Lemma target_plain (cwd : str) (rs comps : list str) :
  forallb good_name rs = true -> forallb plain_name comps = true ->
  comps <> [] ->
  sanitized (join [SLASH] comps) = join [SLASH] comps /\
  target cwd (abs_path rs) (join [SLASH] comps) = abs_path (rs ++ comps).
Proof.
  intros Hrs Hc Hne. destruct comps as [|c cs]; [congruence|].
  assert (Hs : sanitized (join [SLASH] (c :: cs)) = join [SLASH] (c :: cs)).
  { cbn [forallb] in Hc. apply andb_true_iff in Hc. destruct Hc as [Hc _].
    destruct (plain_join_head c cs Hc) as (x & s & -> & Hx).
    apply lstrip_chars_id, Hx. }
  split; [exact Hs|]. unfold target. rewrite Hs.
  pose proof (forallb_plain_good _ Hc) as Hg.
  rewrite (path_join_abs_rel _ _ Hrs Hg Hne).
  apply abspath_abs_path, forallb_app_good. auto.
Qed.

Lemma join_nonempty (c : str) (cs : list str) :
  good_name c = true -> join [SLASH] (c :: cs) <> [].
Proof.
  intros H. destruct (good_name_spec _ H) as (Hn & _).
  destruct c; [congruence|]. destruct cs; discriminate.
Qed.

(** The element of a clean text file is a write entry for the file's
    place below the root. *)
Lemma apply_snapshot_element (cwd : str) (rs comps : list str)
    (data : bytes) (st : loop_state) :
  forallb good_name rs = true -> forallb plain_name comps = true ->
  comps <> [] -> clean_text data = true ->
  apply_file_element cwd (abs_path rs) (abs_path rs) st
    (element_of (entry_of (comps, data)))
  = write_entry cwd (abs_path rs) (abs_path (rs ++ comps))
      (join [SLASH] comps) (snapshot_text data) st.
Proof.
  intros Hrs Hc Hne Hclean.
  destruct (target_plain cwd rs comps Hrs Hc Hne) as [Hs Ht].
  destruct (clean_text_spec _ Hclean) as [_ Hfix].
  rewrite (apply_file_element_write cwd (abs_path rs) (abs_path rs) st
             (element_of (entry_of (comps, data))) (join [SLASH] comps)).
  - rewrite Hs, Ht. f_equal. unfold content_of, element_of, entry_of.
    cbn [text fst snd]. destruct (snapshot_text data) eqn:E;
      [reflexivity|exact Hfix].
  - reflexivity.
  - destruct comps as [|c cs]; [congruence|]. apply join_nonempty.
    cbn [forallb] in Hc. apply andb_true_iff in Hc.
    apply (plain_name_spec c), Hc.
  - reflexivity.
  - rewrite Ht. apply startswith_abs_path.
Qed.

(** *** Applying the elements of a snapshot *)

Lemma app_eq_app_str (a b c d : list str) :
  a ++ b = c ++ d ->
  exists l, (a = c ++ l /\ d = l ++ b) \/ (c = a ++ l /\ b = l ++ d).
Proof. apply app_eq_app. Qed.

Lemma agrees_chain (T fs : node) (rs ic : list str) (name : str)
    (data : bytes) :
  agrees T fs rs ->
  stat T (ic ++ [name]) = Some (KFile data) ->
  forall a b, rs ++ ic = a ++ b ->
    stat fs a = None \/ stat fs a = Some KDir.
Proof.
  intros (Hroot & Hrs & Hag) HT a b E.
  destruct (stat fs a) as [[d|]|] eqn:Ea; [|right; reflexivity|left;
                                                              reflexivity].
  exfalso. symmetry in E.
  destruct (app_eq_app_str _ _ _ _ E) as (l & [[E1 E2]|[E1 E2]]).
  - subst a ic. destruct l as [|x l].
    + rewrite app_nil_r in Ea. congruence.
    + assert (Hn : x :: l <> []) by discriminate.
      pose proof (Hag (x :: l) _ Hn Ea) as H.
      rewrite <- app_assoc in HT.
      rewrite (stat_prefix_KDir T (x :: l) (b ++ [name]) _ HT) in H;
        [discriminate|]. destruct b; discriminate.
  - subst rs. destruct l as [|x l].
    + rewrite app_nil_r in Hrs. congruence.
    + rewrite (stat_prefix_KDir fs a (x :: l) _ Hrs) in Ea; discriminate.
Qed.

Lemma is_prefix_cancel (rs q ic : list str) :
  is_prefix (rs ++ q) (rs ++ ic) = true -> is_prefix q ic = true.
Proof.
  induction rs as [|r rs IH]; [auto|].
  cbn [app is_prefix]. rewrite str_eqb_refl. exact IH.
Qed.

(** One entry of the snapshot applied to a file system that agrees with
    the tree. *)
Lemma apply_snapshot_step (cwd : str) (T : node) (rs : list str)
    (comps : list str) (data : bytes) (fs : node) (log : list event)
    (n : nat) :
  forallb good_name rs = true -> agrees T fs rs ->
  stat T comps = Some (KFile data) -> forallb plain_name comps = true ->
  comps <> [] -> clean_text data = true ->
  exists fs' log' n',
    apply_file_element cwd (abs_path rs) (abs_path rs) (fs, log, n)
      (element_of (entry_of (comps, data))) = (fs', log', n') /\
    agrees T fs' rs /\
    stat fs' (rs ++ comps) = Some (KFile data) /\
    (forall q d, q <> [] -> stat fs (rs ++ q) = Some (KFile d) ->
       stat fs' (rs ++ q) = Some (KFile d)).
Proof.
  intros Hrs Hag HT Hpl Hne Hclean.
  rewrite (apply_snapshot_element cwd rs comps data _ Hrs Hpl Hne Hclean).
  destruct (exists_last Hne) as (ic & name & ->).
  pose proof (forallb_plain_good _ Hpl) as Hg.
  apply forallb_app_good in Hg. destruct Hg as [Hgi Hgn].
  cbn [forallb] in Hgn. rewrite andb_true_r in Hgn.
  destruct (clean_text_spec _ Hclean) as [Henc _].
  pose proof Hag as (Hroot & Hrsd & Hq).
  assert (Ht : stat fs ((rs ++ ic) ++ [name]) <> Some KDir).
  { rewrite <- app_assoc. intros H.
    assert (Hn : ic ++ [name] <> []) by (destruct ic; discriminate).
    apply (Hq _ _ Hn) in H. congruence. }
  rewrite (app_assoc rs ic [name]).
  destruct (write_entry_spec cwd (abs_path rs) (join [SLASH] (ic ++ [name]))
              (snapshot_text data) (rs ++ ic) name data fs log n)
    as (fs' & log' & n' & Hw & Hs & Hf);
    [apply forallb_app_good; auto|exact Hgn|exact Henc|exact Hroot|
     apply (agrees_chain T fs rs ic name data Hag HT)|exact Ht|].
  exists fs', log', n'. split; [exact Hw|].
  assert (Hkeep : forall q k, stat fs q = Some k ->
                    q <> (rs ++ ic) ++ [name] -> stat fs' q = Some k).
  { intros q k Hk Hneq. destruct (Hf q Hneq) as [H|(H & _)]; congruence. }
  assert (Hne0 : [] <> (rs ++ ic) ++ [name])
    by (destruct (rs ++ ic); discriminate).
  assert (Hners : rs <> (rs ++ ic) ++ [name]).
  { intros E. apply (f_equal (@length str)) in E.
    rewrite !length_app in E. simpl in E. lia. }
  split; [|split; [exact Hs|]].
  - split; [apply (Hkeep _ _ Hroot Hne0)|].
    split; [apply (Hkeep _ _ Hrsd Hners)|].
    intros q k Hqne Hk.
    destruct (list_eq_dec (list_eq_dec N.eq_dec) (rs ++ q)
                ((rs ++ ic) ++ [name])) as [E|Hneq].
    + rewrite <- app_assoc in E. apply app_inv_head in E. subst q.
      rewrite app_assoc, Hs in Hk. congruence.
    + destruct (Hf _ Hneq) as [H|(_ & H & Hpre)].
      * rewrite H in Hk. apply (Hq _ _ Hqne Hk).
      * rewrite H in Hk. inversion Hk; subst k.
        apply is_prefix_cancel, is_prefix_app in Hpre.
        destruct Hpre as (r & Er). subst ic. rewrite <- app_assoc in HT.
        apply (stat_prefix_KDir T q (r ++ [name]) _ HT).
        destruct r; discriminate.
  - intros q d Hqne Hk.
    destruct (list_eq_dec (list_eq_dec N.eq_dec) (rs ++ q)
                ((rs ++ ic) ++ [name])) as [E|Hneq].
    + rewrite E, Hs. rewrite <- app_assoc in E. apply app_inv_head in E.
      subst q. apply (Hq _ _ Hqne) in Hk. congruence.
    + apply (Hkeep _ _ Hk Hneq).
Qed.

(** All the entries of a snapshot applied in turn. *)
Lemma apply_snapshot_files (cwd : str) (T : node) (rs : list str)
    (l : list (list str * bytes)) :
  forallb good_name rs = true ->
  forall (fs : node) (log : list event) (n : nat),
  agrees T fs rs -> clean_files T l ->
  exists fs' log' n',
    fold_left (apply_file_element cwd (abs_path rs) (abs_path rs))
      (map (fun f => element_of (entry_of f)) l) (fs, log, n)
    = (fs', log', n') /\
    agrees T fs' rs /\
    (forall q d, q <> [] -> stat fs (rs ++ q) = Some (KFile d) ->
       stat fs' (rs ++ q) = Some (KFile d)) /\
    (forall comps data, In (comps, data) l ->
       stat fs' (rs ++ comps) = Some (KFile data)).
Proof.
  intros Hrs. induction l as [|[comps data] l IH]; intros fs log n Hag Hl.
  - exists fs, log, n. repeat split; try apply Hag; auto. contradiction.
  - destruct (Hl comps data (or_introl eq_refl)) as (HT & Hpl & Hne & Hc).
    destruct (apply_snapshot_step cwd T rs comps data fs log n Hrs Hag HT
                Hpl Hne Hc) as (fs1 & log1 & n1 & H1 & Hag1 & Hs1 & Hk1).
    destruct (IH fs1 log1 n1 Hag1) as (fs' & log' & n' & H2 & Hag2 & Hk2 & Hall).
    { intros c d Hin. apply Hl. right. exact Hin. }
    exists fs', log', n'. cbn [map fold_left]. rewrite H1.
    split; [exact H2|]. split; [exact Hag2|]. split.
    + intros q d Hq Hk. apply (Hk2 _ _ Hq), (Hk1 _ _ Hq), Hk.
    + intros c d [E|Hin].
      * inversion E; subst c d. apply (Hk2 _ _ Hne), Hs1.
      * apply Hall, Hin.
Qed.

(** *** The round trip *)

Lemma rfind_end_LF (a : str) :
  rfind end_tag (a ++ end_tag ++ [LF]) = Some (length a).
Proof.
  induction a as [|c a IH]; [reflexivity|].
  simpl app. cbn [rfind]. simpl app in IH. rewrite IH. reflexivity.
Qed.

Lemma snapshot_block_markup (parts : list str) :
  snapshot_block parts = project_markup parts ++ [LF].
Proof.
  unfold snapshot_block, output_chunks, project_markup.
  cbn [skipn concat]. rewrite app_nil_r, <- !app_assoc. reflexivity.
Qed.

(** The text between the markers of the block that ends a snapshot is the
    block without its final line feed. *)
Lemma snapshot_block_slice (parts : list str) :
  exists i j,
    find start_tag (snapshot_block parts) = Some i /\
    rfind end_tag (snapshot_block parts) = Some j /\
    slice (snapshot_block parts) i (j + length end_tag)
    = project_markup parts.
Proof.
  destruct (project_markup_markers parts) as (a & E1 & E2).
  exists 0, (length (start_tag ++ [LF] ++ join [LF] parts ++ [LF])).
  rewrite snapshot_block_markup.
  split; [rewrite E1, <- app_assoc; apply find_start|].
  split; [rewrite E2 at 1; rewrite <- app_assoc; apply rfind_end_LF|].
  rewrite <- length_app, <- E2. unfold slice.
  rewrite Nat.sub_0_r. cbn [skipn].
  rewrite firstn_app, Nat.sub_diag, firstn_all. cbn [firstn].
  apply app_nil_r.
Qed.

Lemma agrees_empty (T fs : node) (rs : list str) :
  lookup rs fs = Some (Dir []) -> agrees T fs rs.
Proof.
  intros H. assert (Hrs : stat fs rs = Some KDir)
    by (unfold stat; rewrite H; reflexivity).
  split; [|split; [exact Hrs|]].
  - destruct rs as [|r rs]; [exact Hrs|].
    apply (stat_prefix_KDir fs [] (r :: rs) _ Hrs). discriminate.
  - intros q k Hq Hk. unfold stat in Hk. rewrite lookup_app, H in Hk.
    destruct q as [|x q]; [contradiction|discriminate].
Qed.

Lemma walk_blocks (cwd : str) (spec : PathSpec) (rs : list str) (T : node) :
  forallb good_name rs = true -> plain_tree T = true ->
  forallb is_adding (snd (walk cwd spec (abs_path rs) (abs_path rs) T))
  = true ->
  fst (walk cwd spec (abs_path rs) (abs_path rs) T)
  = map block_of (entries T).
Proof.
  intros Hrs Hp Hlog.
  pose proof (walk_all_added cwd spec rs Hrs T [] eq_refl Hp) as H.
  rewrite app_nil_r in H. rewrite (H Hlog). unfold entries.
  rewrite map_map. apply map_ext. intros [c d]. reflexivity.
Qed.

(** C3, amended.  Take a tree of files with plain names, each the UTF-8
    encoding of a text that the cleaner leaves as it is, and a walk of it
    that reports nothing but added files.  When the parser turns the
    container block of the snapshot into its elements, applying the
    snapshot without its preamble to an empty directory writes every file
    of the tree, at its relative path, with the bytes it had. *)
Theorem snapshot_round_trip (ET_fromstring : str -> option Element)
    (cwd : str) (spec : PathSpec) (rs rs2 : list str) (T fs2 : node)
    (input_txt_path : str) :
  forallb good_name rs = true -> forallb good_name rs2 = true ->
  plain_tree T = true ->
  (forall comps data, In (comps, data) (tree_files T) ->
     clean_text data = true) ->
  forallb is_adding (snd (walk cwd spec (abs_path rs) (abs_path rs) T))
  = true ->
  parses_to ET_fromstring (entries T) ->
  lookup rs2 fs2 = Some (Dir []) ->
  read_text cwd true fs2 input_txt_path
  = Some (snapshot_block
            (fst (walk cwd spec (abs_path rs) (abs_path rs) T))) ->
  forall comps data, In (comps, data) (tree_files T) ->
    stat (fst (update_project_from_xml ET_fromstring cwd fs2 (abs_path rs2)
                 input_txt_path))
         (rs2 ++ comps) = Some (KFile data).
Proof.
  intros Hrs Hrs2 Hp Hclean Hlog (root & Hparse & Hfind) Hempty Hread
         comps data Hin.
  unfold update_project_from_xml.
  rewrite (read_text_exists _ _ _ _ _ Hread). cbn [negb]. rewrite Hread.
  destruct (snapshot_block_slice
              (fst (walk cwd spec (abs_path rs) (abs_path rs) T)))
    as (i & j & -> & -> & ->).
  rewrite (walk_blocks cwd spec rs T Hrs Hp Hlog), Hparse, Hfind.
  rewrite (abspath_abs_path cwd rs2 Hrs2). unfold entries.
  rewrite map_map.
  destruct (apply_snapshot_files cwd T rs2 (tree_files T) Hrs2 fs2
              [UpdateMode; ApplyingChanges input_txt_path] 0
              (agrees_empty T fs2 rs2 Hempty))
    as (fs' & log' & n' & Hfold & _ & _ & Hall).
  { intros c d Hcd.
    destruct (tree_files_stat T Hp c d Hcd) as (Hs & Hpl & Hne).
    repeat split; auto. apply (Hclean c d Hcd). }
  rewrite Hfold. cbn [fst]. apply Hall, Hin.
Qed.

Lemma snapshot_round_trip_witness :
  forallb good_name [lit "src"] = true /\
  forallb good_name [lit "home"; lit "project"] = true /\
  plain_tree sample_tree = true /\
  (forall comps data, In (comps, data) (tree_files sample_tree) ->
     clean_text data = true) /\
  forallb is_adding (snd (walk_src sample_tree)) = true /\
  parses_to container_fromstring (entries sample_tree) /\
  lookup [lit "home"; lit "project"] (block_fs sample_tree)
  = Some (Dir []) /\
  read_text (lit "/") true (block_fs sample_tree) TMP_UPDATE
  = Some (snapshot_block (fst (walk_src sample_tree))) /\
  In ([lit "src"; lit "m.py"], utf8 (lit "x = 1"))
     (tree_files sample_tree) /\
  stat (fst (update_project_from_xml container_fromstring (lit "/")
               (block_fs sample_tree)
               (abs_path [lit "home"; lit "project"]) TMP_UPDATE))
       ([lit "home"; lit "project"] ++ [lit "src"; lit "m.py"])
  = Some (KFile (utf8 (lit "x = 1"))).
Proof.
  assert (Hclean : forall comps data,
             In (comps, data) (tree_files sample_tree) ->
             clean_text data = true).
  { intros comps data [E|[E|[]]]; inversion E; reflexivity. }
  assert (Hparse : parses_to container_fromstring (entries sample_tree)).
  { eexists. split; [vm_compute; reflexivity|reflexivity]. }
  assert (Hin : In ([lit "src"; lit "m.py"], utf8 (lit "x = 1"))
                   (tree_files sample_tree))
    by (right; left; reflexivity).
  split; [reflexivity|]. split; [reflexivity|]. split; [reflexivity|].
  split; [exact Hclean|]. split; [reflexivity|]. split; [exact Hparse|].
  split; [reflexivity|]. split; [vm_compute; reflexivity|].
  split; [exact Hin|].
  exact (snapshot_round_trip container_fromstring (lit "/") no_rule
           [lit "src"] [lit "home"; lit "project"] sample_tree
           (block_fs sample_tree) TMP_UPDATE eq_refl eq_refl eq_refl
           Hclean eq_refl Hparse eq_refl
           ltac:(vm_compute; reflexivity) _ _ Hin).
Defined.

(** C3, counterexample.  The snapshot of a tree of two clean text files,
    applied as [create_project_xml] wrote it, restores nothing: the
    preamble of the snapshot spells the opening marker in its example,
    the text handed to the parser starts there and holds two blocks, and
    the run ends with the diagnostic of a malformed document. *)
Lemma snapshot_file_is_rejected :
  plain_tree sample_tree = true /\
  forallb (fun f => clean_text (snd f)) (tree_files sample_tree) = true /\
  forallb is_adding (snd (walk_src sample_tree)) = true /\
  In ([lit "a.txt"], utf8 (lit "hi")) (tree_files sample_tree) /\
  exists fs,
    snapshot_fs no_rule sample_tree = Some fs /\
    lookup [lit "home"; lit "project"] fs = Some (Dir []) /\
    update_project_from_xml container_fromstring (lit "/") fs ROOT
      TMP_UPDATE
    = (fs, [UpdateMode; ApplyingChanges TMP_UPDATE;
            MalformedXml TMP_UPDATE]) /\
    stat (fst (update_project_from_xml container_fromstring (lit "/") fs
                 ROOT TMP_UPDATE))
         [lit "home"; lit "project"; lit "a.txt"] = None.
Proof.
  split; [reflexivity|]. split; [reflexivity|]. split; [reflexivity|].
  split; [left; reflexivity|].
  eexists. split; [vm_compute; reflexivity|].
  split; [reflexivity|]. split; vm_compute; reflexivity.
Qed.

(** Whatever the parser, the text it is handed for a snapshot starts
    inside the preamble, at the marker of the example, and is longer than
    the container block. *)
Lemma snapshot_file_markers :
  exists fs full i j,
    snapshot_fs no_rule sample_tree = Some fs /\
    read_text (lit "/") true fs TMP_UPDATE = Some full /\
    find start_tag full = Some i /\ rfind end_tag full = Some j /\
    i < length (strip HEADER_TEXT) /\
    length (project_markup (fst (walk_src sample_tree)))
    < length (slice full i (j + length end_tag)).
Proof.
  do 4 eexists. split; [vm_compute; reflexivity|].
  split; [vm_compute; reflexivity|].
  split; [vm_compute; reflexivity|].
  split; [vm_compute; reflexivity|].
  split; vm_compute; lia.
Qed.

(** A text file in Latin-1 is not binary and is added, but the snapshot
    drops the byte that is not UTF-8: the file written back is shorter.
    Such a file is not the encoding of a text. *)
Lemma latin1_file_is_not_restored :
  forallb is_adding (snd (walk_src latin1_tree)) = true /\
  forallb (fun f => clean_text (snd f)) (tree_files latin1_tree) = false /\
  tree_files latin1_tree = [([lit "cafe.txt"], [99; 97; 102; 233]%N)] /\
  stat (fst (update_project_from_xml container_fromstring (lit "/")
               (block_fs latin1_tree) ROOT TMP_UPDATE))
       [lit "home"; lit "project"; lit "cafe.txt"]
  = Some (KFile [99; 97; 102]%N).
Proof. repeat split; vm_compute; reflexivity. Qed.

(** A file whose name holds a backslash comes back under another path:
    the snapshot spells the backslash as a slash. *)
Lemma backslash_file_is_moved :
  forallb is_adding (snd (walk_src backslash_tree)) = true /\
  plain_tree backslash_tree = false /\
  stat (fst (update_project_from_xml container_fromstring (lit "/")
               (block_fs backslash_tree) ROOT TMP_UPDATE))
       [lit "home"; lit "project"; lit "a" ++ [BACKSLASH] ++ lit "b.txt"]
  = None /\
  stat (fst (update_project_from_xml container_fromstring (lit "/")
               (block_fs backslash_tree) ROOT TMP_UPDATE))
       [lit "home"; lit "project"; lit "a"; lit "b.txt"]
  = Some (KFile (utf8 (lit "hi"))).
Proof. repeat split; vm_compute; reflexivity. Qed.
